(** * Altered Knowledge repository: the validation engine of
    [UTILS/validate_repo.py], embedded in Rocq.

    The validators read parsed JSON documents, append findings to a shared
    context and register cards in a shared card index.  The embedding keeps
    the Python semantics the validators rely on: truthiness, [isinstance],
    [==] on scalars, hashability of dictionary keys, the exceptions raised by
    string methods on non-strings, and in-place mutation of the context that
    survives a raised exception. *)

From Stdlib Require Import ZArith QArith List String Ascii Bool Lia.
Import ListNotations.
Local Open Scope Z_scope.
Local Open Scope string_scope.
Local Open Scope list_scope.
#[local] Set Warnings "-register-all".

(** ** Parsed JSON documents (the values [json.load] returns) *)

(** Numbers are either [int] or [float]; a finite float is represented by its
    exact rational value.  An object is the insertion-ordered list of its
    members (a Python [dict]). *)
Inductive json : Type :=
| JNull
| JBool (b : bool)
| JInt (z : Z)
| JFloat (q : Q)
| JStr (s : string)
| JList (l : list json)
| JObj (o : list (string * json)).

Definition obj : Type := list (string * json).

(** Python truthiness: [bool(v)]. *)
Definition truthy (v : json) : bool :=
  match v with
  | JNull => false
  | JBool b => b
  | JInt z => negb (Z.eqb z 0)
  | JFloat q => negb (Qeq_bool q (0 # 1))
  | JStr s => negb (s =? "")
  | JList l => match l with [] => false | _ => true end
  | JObj o => match o with [] => false | _ => true end
  end.

(** [a or b]. *)
Definition py_or (a b : json) : json := if truthy a then a else b.

(** [isinstance(v, int)]: [bool] is a subclass of [int], so JSON [true] and
    [false] pass the test with the values 1 and 0. *)
Definition as_int (v : json) : option Z :=
  match v with
  | JInt z => Some z
  | JBool b => Some (if b then 1 else 0)
  | _ => None
  end.

(** Lists and dicts are unhashable; every other JSON value can be a key. *)
Definition hashable (v : json) : bool :=
  match v with
  | JList _ | JObj _ => false
  | _ => true
  end.

Definition num_val (v : json) : option Q :=
  match v with
  | JBool b => Some (if b then 1 # 1 else 0 # 1)
  | JInt z => Some (inject_Z z)
  | JFloat q => Some q
  | _ => None
  end.

(** [a == b] where at least one operand is a scalar (the only way the
    validators use it: one side is always a dictionary key).  Numbers compare
    by value across [bool], [int] and [float]; a container never equals a
    scalar. *)
Definition py_eq (a b : json) : bool :=
  match a, b with
  | JNull, JNull => true
  | JStr s, JStr t => (s =? t)
  | _, _ =>
      match num_val a, num_val b with
      | Some x, Some y => Qeq_bool x y
      | _, _ => false
      end
  end.

(** ** Dictionaries keyed by strings (JSON objects) *)

Fixpoint dict_get (o : obj) (k : string) : option json :=
  match o with
  | [] => None
  | (k', v) :: o' => if (k' =? k) then Some v else dict_get o' k
  end.

(** [k in o] *)
Definition py_in (k : string) (o : obj) : bool :=
  match dict_get o k with Some _ => true | None => false end.

(** [o.get(k, d)] *)
Definition py_get_d (o : obj) (k : string) (d : json) : json :=
  match dict_get o k with Some v => v | None => d end.

(** [o.get(k)] *)
Definition py_get (o : obj) (k : string) : json := py_get_d o k JNull.

(** ** Strings: [upper], [lower], [strip] (on the ASCII range) *)

Definition is_upper (c : ascii) : bool :=
  let n := nat_of_ascii c in (Nat.leb 65 n && Nat.leb n 90)%bool.

Definition is_lower (c : ascii) : bool :=
  let n := nat_of_ascii c in (Nat.leb 97 n && Nat.leb n 122)%bool.

Definition lower_ascii (c : ascii) : ascii :=
  if is_upper c then ascii_of_nat (nat_of_ascii c + 32)%nat else c.

Definition upper_ascii (c : ascii) : ascii :=
  if is_lower c then ascii_of_nat (nat_of_ascii c - 32)%nat else c.

(** The characters [str.strip()] removes: tab, newline, vertical tab, form
    feed, carriage return, the four separators 28-31 and the space. *)
Definition is_space (c : ascii) : bool :=
  let n := nat_of_ascii c in
  ((Nat.leb 9 n && Nat.leb n 13) || (Nat.leb 28 n && Nat.leb n 32))%bool.

Fixpoint map_string (f : ascii -> ascii) (s : string) : string :=
  match s with
  | EmptyString => EmptyString
  | String c s' => String (f c) (map_string f s')
  end.

Definition str_upper (s : string) : string := map_string upper_ascii s.
Definition str_lower (s : string) : string := map_string lower_ascii s.

Fixpoint lstrip (s : string) : string :=
  match s with
  | EmptyString => EmptyString
  | String c s' => if is_space c then lstrip s' else s
  end.

(** [rstrip]: a character is dropped when it is a space and everything after
    it has been dropped. *)
Fixpoint rstrip (s : string) : string :=
  match s with
  | EmptyString => EmptyString
  | String c s' =>
      match rstrip s' with
      | EmptyString => if is_space c then EmptyString else String c EmptyString
      | r => String c r
      end
  end.

Definition str_strip (s : string) : string := rstrip (lstrip s).

Fixpoint str_mem (s : string) (l : list string) : bool :=
  match l with
  | [] => false
  | t :: l' => (s =? t) || str_mem s l'
  end.

(** ** Regular expressions: the compiled pattern of [re.compile] *)

Inductive regex : Type :=
| RFail
| REps
| RChar (c : ascii)
| RDot
| RRange (lo hi : ascii)
| RSeq (r1 r2 : regex)
| RAlt (r1 r2 : regex)
| RStar (r : regex).

Definition RPlus (r : regex) : regex := RSeq r (RStar r).

Fixpoint nullable (r : regex) : bool :=
  match r with
  | RFail => false
  | REps => true
  | RChar _ => false
  | RDot => false
  | RRange _ _ => false
  | RSeq r1 r2 => nullable r1 && nullable r2
  | RAlt r1 r2 => nullable r1 || nullable r2
  | RStar _ => true
  end.

Definition newline : ascii := ascii_of_nat 10.

Fixpoint deriv (a : ascii) (r : regex) : regex :=
  match r with
  | RFail => RFail
  | REps => RFail
  | RChar c => if Ascii.eqb a c then REps else RFail
  | RDot => if Ascii.eqb a newline then RFail else REps
  | RRange lo hi =>
      if (Nat.leb (nat_of_ascii lo) (nat_of_ascii a)
          && Nat.leb (nat_of_ascii a) (nat_of_ascii hi))%bool
      then REps else RFail
  | RSeq r1 r2 =>
      if nullable r1
      then RAlt (RSeq (deriv a r1) r2) (deriv a r2)
      else RSeq (deriv a r1) r2
  | RAlt r1 r2 => RAlt (deriv a r1) (deriv a r2)
  | RStar r1 => RSeq (deriv a r1) (RStar r1)
  end.


(** [pattern.match(s)]: zero or more characters at the beginning of [s] are
    in the language. *)
Fixpoint re_match (r : regex) (s : string) : bool :=
  nullable r ||
  match s with
  | EmptyString => false
  | String a s' => re_match (deriv a r) s'
  end.

(** ** Findings and the validation context *)

Inductive Level : Type := ERROR | WARN.

(** A path as the validators see it: [path.parts] and [path.suffix]. *)
Record Path : Type := mkPath { parts : list string; suffix : string }.

(** One constructor per message template; the arguments are the values the
    f-string interpolates. *)
Inductive Message : Type :=
| MLoadFailed (e : json)
| MNotObject (i : nat)
| MMissingField (i : nat) (f : string)
| MIdPattern (i : nat) (cid : json)
| MRarityNotAllowed (i : nat) (rarity : json) (allowed : list string)
| MEmptyType (i : nat)
| MCountRange (i : nat) (cnt : Z) (lo hi : Z)
| MCountNotInt (i : nat)
| MDeckNotObject
| MDeckMissingField (f : string)
| MCardsNotList
| MHeroMissing
| MHeroNotFound (hero_id : json)
| MHeroNotHero (hero_id : json) (ty : json)
| MDeckFaction (deck_faction hero_faction : string)
| MEntryNotObject (i : nat)
| MEntryInvalid (i : nat)
| MCardNotFound (i : nat) (cid : json)
| MCardFaction (i : nat) (name : json) (cf hero_faction : string)
| MToken (i : nat) (name : json)
| MDeckSize (total lo hi : Z)
| MTooManyCopies (max_same : Z) (name : json) (cnt : Z)
| MTooManyRare (rare max_rare : Z)
| MTooManyUnique (uniq max_unique : Z)
| MHeroCopies (hero_seen : Z).

Record Finding : Type := mkFinding
  { f_path : Path; f_level : Level; f_message : Message }.

(** The rule sets of [validation_schema.json]; an absent key is [None] and
    the validators supply the default. *)
Record CardRule : Type := mkCardRule
  { card_required_fields : list string;
    id_pattern : option regex;
    allowed_rarities : list string }.

Record CollectionRule : Type := mkCollectionRule
  { coll_required_fields : list string;
    count_min : option Z;
    count_max : option Z }.

Record Constraints : Type := mkConstraints
  { c_min_cards : option Z;
    c_max_cards : option Z;
    c_unique_hero : option bool;
    c_max_same_card : option Z;
    c_max_rare_cards : option Z;
    c_max_unique_cards : option Z;
    c_same_faction_as_hero : option bool }.

Record DeckRule : Type := mkDeckRule
  { deck_required_fields : list string;
    constraints : Constraints }.

Record Schema : Type := mkSchema
  { card_file : CardRule;
    collection_file : CollectionRule;
    deck_file : DeckRule }.

(** What the instrumentation records: a call of [_load_card_meta] for an id,
    and the start of the fallback loop over the tree for an id. *)
Inductive Event : Type :=
| EvLookup (card_id : json)
| EvScan (card_id : json).

(** [Context]: [root] stands for the files [ctx.root.rglob("CARDS/**/*.json")]
    yields, each with the value [load_json] returns for it.  [trace] is an
    instrumentation of [_load_card_meta]: its calls and the traversals of the
    tree by the fallback search, oldest first. *)
Record Context : Type := mkContext
  { root : list (Path * json);
    schema : Schema;
    findings : list Finding;
    card_index : list (json * obj);
    trace : list Event }.

(** ** Effects: mutation of the context and exceptions *)

Inductive exn : Type := TypeError | AttributeError.

Inductive outcome (A : Type) : Type :=
| Ok (a : A)
| Raise (e : exn).
Arguments Ok {A} a.
Arguments Raise {A} e.

(** A computation mutates the context in place, so the context comes back
    also when an exception is raised. *)
Definition M (A : Type) : Type := Context -> Context * outcome A.

Definition ret {A} (a : A) : M A := fun ctx => (ctx, Ok a).

Definition bind {A B} (m : M A) (k : A -> M B) : M B :=
  fun ctx =>
    match m ctx with
    | (ctx', Ok a) => k a ctx'
    | (ctx', Raise e) => (ctx', Raise e)
    end.

Definition raise {A} (e : exn) : M A := fun ctx => (ctx, Raise e).

Definition lift {A} (r : outcome A) : M A := fun ctx => (ctx, r).

Notation "x <- m ;; k" := (bind m (fun x => k))
  (at level 61, m at next level, right associativity).
Notation "m ;;; k" := (bind m (fun _ => k))
  (at level 61, right associativity).

(** [ctx.add(path, level, message)] *)
Definition add (p : Path) (l : Level) (m : Message) : M unit :=
  fun ctx =>
    (mkContext (root ctx) (schema ctx)
       (findings ctx ++ [mkFinding p l m]) (card_index ctx) (trace ctx),
     Ok tt).

Definition when (b : bool) (m : M unit) : M unit := if b then m else ret tt.

(** [for x in xs: body(x)] *)
Fixpoint for_each {A} (xs : list A) (body : A -> M unit) : M unit :=
  match xs with
  | [] => ret tt
  | x :: xs' => body x ;;; for_each xs' body
  end.

(** [for i, x in enumerate(xs)] threading the loop's local variables. *)
Fixpoint for_enum {A St} (i : nat) (xs : list A) (s : St)
  (body : nat -> A -> St -> M St) : M St :=
  match xs with
  | [] => ret s
  | x :: xs' => s' <- body i x s ;; for_enum (S i) xs' s' body
  end.

(** Reading the context. *)
Definition get_ctx : M Context := fun ctx => (ctx, Ok ctx).

Definition default {A} (d : A) (o : option A) : A :=
  match o with Some a => a | None => d end.

(** ** The card index: a [dict] keyed by card ids *)

Fixpoint index_lookup {V} (k : json) (idx : list (json * V)) : option V :=
  match idx with
  | [] => None
  | (k', v) :: idx' => if py_eq k' k then Some v else index_lookup k idx'
  end.

(** [d[k] = v]: the value of an existing key is replaced in place, a new key
    goes to the end. *)
Fixpoint index_set {V} (k : json) (v : V) (idx : list (json * V))
  : list (json * V) :=
  match idx with
  | [] => [(k, v)]
  | (k', v') :: idx' =>
      if py_eq k' k then (k', v) :: idx' else (k', v') :: index_set k v idx'
  end.

(** [d.setdefault(k, v)] *)
Definition index_setdefault {V} (k : json) (v : V) (idx : list (json * V))
  : list (json * V) :=
  match index_lookup k idx with
  | Some _ => idx
  | None => index_set k v idx
  end.

Definition with_card_index (ctx : Context) (idx : list (json * obj))
  : Context :=
  mkContext (root ctx) (schema ctx) (findings ctx) idx (trace ctx).

(** [ctx.card_index.setdefault(cid, obj)] *)
Definition setdefault_card (cid : json) (o : obj) : M unit :=
  fun ctx =>
    (with_card_index ctx (index_setdefault cid o (card_index ctx)), Ok tt).

(** [ctx.card_index[card_id] = data] *)
Definition set_card (card_id : json) (data : obj) : M unit :=
  fun ctx =>
    (with_card_index ctx (index_set card_id data (card_index ctx)), Ok tt).

Definition log (e : Event) : M unit :=
  fun ctx =>
    (mkContext (root ctx) (schema ctx) (findings ctx) (card_index ctx)
       (trace ctx ++ [e]), Ok tt).

(** ** Utilities of the source *)

Fixpoint list_index (x : string) (l : list string) : option nat :=
  match l with
  | [] => None
  | y :: l' =>
      if (y =? x) then Some O
      else match list_index x l' with
           | Some i => Some (S i)
           | None => None
           end
  end.

Definition is_json (p : Path) : bool := (str_lower (suffix p) =? ".json").

Definition looks_like_card_file (p : Path) : bool :=
  match list_index "CARDS" (parts p) with
  | Some i => (Nat.leb (i + 5) (List.length (parts p)) && is_json p)%bool
  | None => false
  end.

(** [isinstance(data, dict) and "__load_error__" in data] *)
Definition is_load_error (data : json) : bool :=
  match data with
  | JObj o => py_in "__load_error__" o
  | _ => false
  end.

(** A string method called on [v]: an [AttributeError] unless [v] is a
    string. *)
Definition str_method (f : string -> string) (v : json) : outcome string :=
  match v with
  | JStr s => Ok (f s)
  | _ => Raise AttributeError
  end.

Definition type_mapping : list (string * string) :=
  [("hero", "hero"); ("held", "hero");
   ("companion", "companion"); ("begleiter", "companion");
   ("character", "character"); ("charakter", "character");
   ("spell", "spell"); ("zauber", "spell");
   ("permanent", "permanent"); ("permanent/landmark", "permanent");
   ("landmark", "permanent");
   ("token", "token"); ("spielstein", "token")].

Fixpoint mapping_get (m : list (string * string)) (k d : string) : string :=
  match m with
  | [] => d
  | (k', v) :: m' => if (k' =? k) then v else mapping_get m' k d
  end.

Definition norm_type (value : json) : outcome string :=
  match str_method (fun s => str_lower (str_strip s)) (py_or value (JStr ""))
  with
  | Ok v => Ok (mapping_get type_mapping v v)
  | Raise e => Raise e
  end.

(** [(card_obj.get(k) or "").upper()] *)
Definition upper_field (o : obj) (k : string) : outcome string :=
  str_method str_upper (py_or (py_get o k) (JStr "")).

Definition rarity_flags (card_obj : obj) : outcome (bool * bool) :=
  match upper_field card_obj "rarity" with
  | Ok r =>
      let is_unique := (truthy (py_get card_obj "unique") || (r =? "U"))%bool in
      let is_rare := (r =? "R") in
      Ok (is_rare, is_unique)
  | Raise e => Raise e
  end.

(** ** Card files *)

(** [id_re.match(cid)]: a [TypeError] unless [cid] is a string. *)
Definition id_re_match (id_re : regex) (cid : json) : outcome bool :=
  match cid with
  | JStr s => Ok (re_match id_re s)
  | _ => Raise TypeError
  end.

(** The body of the loop over the items of a card file, one definition per
    block of the source. *)
Definition card_required (rule : CardRule) (path : Path) (i : nat) (o : obj)
  : M unit :=
  for_each (card_required_fields rule) (fun field_name =>
    when (negb (py_in field_name o))
      (add path ERROR (MMissingField i field_name))).

Definition card_id_check (path : Path) (id_re : regex) (i : nat) (o : obj)
  : M unit :=
  let cid := py_get o "id" in
  when (truthy cid)
    (m <- lift (id_re_match id_re cid) ;;
     when (negb m) (add path WARN (MIdPattern i cid)) ;;;
     setdefault_card cid o).

Definition card_rarity_check (rule : CardRule) (path : Path) (i : nat)
  (o : obj) : M unit :=
  let rarity := py_get o "rarity" in
  when (match allowed_rarities rule with [] => false | _ => true end
        && truthy rarity)
    (u <- lift (str_method str_upper rarity) ;;
     when (negb (str_mem u (allowed_rarities rule)))
       (add path WARN (MRarityNotAllowed i rarity (allowed_rarities rule)))).

Definition card_type_check (path : Path) (i : nat) (o : obj) : M unit :=
  t <- lift (norm_type (py_get_d o "type" (JStr ""))) ;;
  when (t =? "") (add path WARN (MEmptyType i)).

Definition validate_card_item (rule : CardRule) (path : Path) (id_re : regex)
  (i : nat) (item : json) : M unit :=
  match item with
  | JObj o =>
      card_required rule path i o ;;;
      card_id_check path id_re i o ;;;
      card_rarity_check rule path i o ;;;
      card_type_check path i o
  | _ => add path ERROR (MNotObject i)
  end.

(** [items = data if isinstance(data, list) else [data]] *)
Definition items_of (data : json) : list json :=
  match data with
  | JList l => l
  | _ => [data]
  end.

(** [validate_card_file(ctx, path)], where [data] is what [load_json(path)]
    returned. *)
Definition validate_card_file (path : Path) (data : json) : M unit :=
  ctx <- get_ctx ;;
  let rule := card_file (schema ctx) in
  if is_load_error data
  then add path ERROR (MLoadFailed (match data with
                                    | JObj o => py_get o "__load_error__"
                                    | _ => JNull
                                    end))
  else
    let id_re := default (RPlus RDot) (id_pattern rule) in
    for_enum O (items_of data) tt
      (fun i item _ => validate_card_item rule path id_re i item).

(** ** Collection files *)

Definition collection_required (rule : CollectionRule) (path : Path)
  (i : nat) (o : obj) : M unit :=
  for_each (coll_required_fields rule) (fun f =>
    when (negb (py_in f o)) (add path ERROR (MMissingField i f))).

Definition collection_count_check (path : Path) (min_c max_c : Z) (i : nat)
  (o : obj) : M unit :=
  let cnt := py_get o "count" in
  match as_int cnt with
  | Some c =>
      when ((c <? min_c)%Z || (c >? max_c)%Z)
        (add path WARN (MCountRange i c min_c max_c))
  | None => add path ERROR (MCountNotInt i)
  end.

Definition validate_collection_item (rule : CollectionRule) (path : Path)
  (min_c max_c : Z) (i : nat) (item : json) : M unit :=
  match item with
  | JObj o =>
      collection_required rule path i o ;;;
      collection_count_check path min_c max_c i o
  | _ => add path ERROR (MNotObject i)
  end.

Definition validate_collection_file (path : Path) (data : json) : M unit :=
  ctx <- get_ctx ;;
  let rule := collection_file (schema ctx) in
  if is_load_error data
  then add path ERROR (MLoadFailed (match data with
                                    | JObj o => py_get o "__load_error__"
                                    | _ => JNull
                                    end))
  else
    let min_c := default 0%Z (count_min rule) in
    let max_c := default 99%Z (count_max rule) in
    for_enum O (items_of data) tt
      (fun i item _ => validate_collection_item rule path min_c max_c i item).

(** ** Lazy card resolution *)

(** The inner loop over an array-shaped card file. *)
Fixpoint find_in_list (card_id : json) (l : list json) : option obj :=
  match l with
  | [] => None
  | JObj o :: l' =>
      if py_eq (py_get o "id") card_id then Some o
      else find_in_list card_id l'
  | _ :: l' => find_in_list card_id l'
  end.

(** The fallback loop over the card files of the tree: the first object whose
    [id] equals [card_id]. *)
Fixpoint scan_tree (card_id : json) (files : list (Path * json))
  : option obj :=
  match files with
  | [] => None
  | (p, data) :: rest =>
      if negb (looks_like_card_file p) then scan_tree card_id rest
      else
        match data with
        | JObj o =>
            if py_eq (py_get o "id") card_id then Some o
            else scan_tree card_id rest
        | JList l =>
            match find_in_list card_id l with
            | Some o => Some o
            | None => scan_tree card_id rest
            end
        | _ => scan_tree card_id rest
        end
  end.

(** [card_id in ctx.card_index] hashes the key first: a [TypeError] for a
    list or a dict. *)
Definition _load_card_meta (card_id : json) : M (option obj) :=
  log (EvLookup card_id) ;;;
  if negb (hashable card_id) then raise TypeError
  else
    ctx <- get_ctx ;;
    match index_lookup card_id (card_index ctx) with
    | Some meta => ret (Some meta)
    | None =>
        log (EvScan card_id) ;;;
        match scan_tree card_id (root ctx) with
        | Some data =>
            set_card card_id data ;;;
            ret (Some data)
        | None => ret None
        end
    end.

(** ** Deck files *)

(** The counters of [validate_deck_file]. *)
Record DeckAcc : Type := mkDeckAcc
  { total_qty : Z;
    name_counts : list (json * Z);
    rare_count : Z;
    unique_count : Z;
    hero_seen : Z }.

Definition acc0 : DeckAcc := mkDeckAcc 0 [] 0 0 0.

(** [not meta]: [None] or an empty dict. *)
Definition found (meta : option obj) : option obj :=
  match meta with
  | Some (kv :: o) => Some (kv :: o)
  | _ => None
  end.

(** [hero_faction] is [None] or a string; only a non-empty string is
    truthy. *)
Definition faction_known (hero_faction : option string) : bool :=
  match hero_faction with
  | Some s => negb (s =? "")
  | None => false
  end.

Definition isinstance_int (v : json) : bool :=
  match as_int v with Some _ => true | None => false end.

Definition int_value (v : json) : Z := default 0%Z (as_int v).

(** [name = meta.get("name") or meta.get("title") or cid]: the display name
    under which a resolved entry is counted and reported. *)
Definition display_name (meta : obj) (cid : json) : json :=
  py_or (py_get meta "name") (py_or (py_get meta "title") cid).

(** [total_qty += qty] *)
Definition add_total (acc : DeckAcc) (qty : Z) : DeckAcc :=
  mkDeckAcc (total_qty acc + qty)%Z (name_counts acc) (rare_count acc)
    (unique_count acc) (hero_seen acc).

(** The rest of the loop body once the entry's card is resolved to [meta]:
    the name, rarity and hero counters, the faction rule and the token
    rule. *)
Definition deck_entry_resolved (path : Path) (hero_id : json)
  (hero_faction : option string) (same_faction_as_hero : bool)
  (i : nat) (cid : json) (qty : Z) (meta : obj) (acc : DeckAcc)
  : M DeckAcc :=
  let name := display_name meta cid in
  if negb (hashable name) then raise TypeError
  else
    let name_counts :=
      index_set name
        (default 0%Z (index_lookup name (name_counts acc)) + qty)%Z
        (name_counts acc) in
    flags <- lift (rarity_flags meta) ;;
    let rare_count :=
      if fst flags then (rare_count acc + qty)%Z else rare_count acc in
    let unique_count :=
      if snd flags then (unique_count acc + qty)%Z else unique_count acc in
    let hero_seen :=
      if (truthy hero_id && py_eq cid hero_id)%bool
      then (hero_seen acc + qty)%Z else hero_seen acc in
    when (same_faction_as_hero && faction_known hero_faction)
      (cf <- lift (upper_field meta "faction") ;;
       when (negb (cf =? "") && negb (cf =? default "" hero_faction))
         (add path ERROR
            (MCardFaction i name cf (default "" hero_faction)))) ;;;
    t <- lift (norm_type (py_get_d meta "type" (JStr ""))) ;;
    when (t =? "token") (add path ERROR (MToken i name)) ;;;
    ret (mkDeckAcc (total_qty acc) name_counts rare_count unique_count
           hero_seen).

(** The body of the loop over [cards]; every [continue] returns the counters
    as they are at that point. *)
Definition deck_entry (path : Path) (hero_id : json)
  (hero_faction : option string) (same_faction_as_hero : bool)
  (i : nat) (entry : json) (acc : DeckAcc) : M DeckAcc :=
  match entry with
  | JObj e =>
      let cid := py_get e "card_id" in
      let qty := py_get e "qty" in
      if (negb (truthy cid) || negb (isinstance_int qty))%bool
      then add path ERROR (MEntryInvalid i) ;;; ret acc
      else
        let qty := int_value qty in
        let acc := add_total acc qty in
        meta <- _load_card_meta cid ;;
        match found meta with
        | None => add path ERROR (MCardNotFound i cid) ;;; ret acc
        | Some meta =>
            deck_entry_resolved path hero_id hero_faction
              same_faction_as_hero i cid qty meta acc
        end
  | _ => add path ERROR (MEntryNotObject i) ;;; ret acc
  end.

(** The hero check; returns [hero_faction]. *)
Definition hero_check (path : Path) (hero_id : json) (deck_faction : string)
  : M (option string) :=
  if negb (truthy hero_id)
  then add path ERROR MHeroMissing ;;; ret None
  else
    hero_meta <- _load_card_meta hero_id ;;
    match found hero_meta with
    | None => add path ERROR (MHeroNotFound hero_id) ;;; ret None
    | Some hero_meta =>
        t <- lift (norm_type (py_get_d hero_meta "type" (JStr ""))) ;;
        when (negb (t =? "hero"))
          (add path ERROR (MHeroNotHero hero_id (py_get hero_meta "type"))) ;;;
        hero_faction <- lift (upper_field hero_meta "faction") ;;
        when (negb (deck_faction =? "") && negb (hero_faction =? "")
              && negb (deck_faction =? hero_faction))
          (add path ERROR (MDeckFaction deck_faction hero_faction)) ;;;
        ret (Some hero_faction)
    end.

(** The checks after the loop. *)
Definition deck_totals (path : Path) (cons : Constraints) (acc : DeckAcc)
  : M unit :=
  let min_cards := default 40%Z (c_min_cards cons) in
  let max_cards := default 60%Z (c_max_cards cons) in
  let unique_hero := default true (c_unique_hero cons) in
  let max_same := default 3%Z (c_max_same_card cons) in
  let max_rare := default 15%Z (c_max_rare_cards cons) in
  let max_unique := default 3%Z (c_max_unique_cards cons) in
  when ((total_qty acc <? min_cards)%Z || (total_qty acc >? max_cards)%Z)
    (add path ERROR (MDeckSize (total_qty acc) min_cards max_cards)) ;;;
  for_each (name_counts acc) (fun nc =>
    when (snd nc >? max_same)%Z
      (add path ERROR (MTooManyCopies max_same (fst nc) (snd nc)))) ;;;
  when (rare_count acc >? max_rare)%Z
    (add path ERROR (MTooManyRare (rare_count acc) max_rare)) ;;;
  when (unique_count acc >? max_unique)%Z
    (add path ERROR (MTooManyUnique (unique_count acc) max_unique)) ;;;
  when (unique_hero && negb (hero_seen acc =? 1)%Z)
    (add path ERROR (MHeroCopies (hero_seen acc))).

(** The part of [validate_deck_file] after the structure checks: the hero
    check, the loop over [cards] and the checks after the loop. *)
Definition deck_checks (path : Path) (cons : Constraints) (hero_id : json)
  (deck_faction : string) (cards : list json) : M unit :=
  let same_faction_as_hero := default true (c_same_faction_as_hero cons) in
  hero_faction <- hero_check path hero_id deck_faction ;;
  acc <- for_enum O cards acc0
           (deck_entry path hero_id hero_faction same_faction_as_hero) ;;
  deck_totals path cons acc.

(** [validate_deck_file(ctx, path)], where [data] is what [load_json(path)]
    returned. *)
Definition validate_deck_file (path : Path) (data : json) : M unit :=
  ctx <- get_ctx ;;
  let rule := deck_file (schema ctx) in
  if is_load_error data
  then add path ERROR (MLoadFailed (match data with
                                    | JObj o => py_get o "__load_error__"
                                    | _ => JNull
                                    end))
  else
    match data with
    | JObj d =>
        for_each (deck_required_fields rule) (fun f =>
          when (negb (py_in f d)) (add path ERROR (MDeckMissingField f))) ;;;
        let hero_id := py_get d "hero_id" in
        deck_faction <- lift (upper_field d "faction") ;;
        let cards := py_or (py_get d "cards") (JList []) in
        match cards with
        | JList cards =>
            deck_checks path (constraints rule) hero_id deck_faction cards
        | _ => add path ERROR MCardsNotList
        end
    | _ => add path ERROR MDeckNotObject
    end.

(** * Notions used to state the properties *)

(** ** Frames: relations between the context before and after *)

Class FrameRel (R : Context -> Context -> Prop) : Prop :=
  { frame_refl : forall c, R c c;
    frame_trans : forall a b c, R a b -> R b c -> R a c }.

(** [frame R m]: whatever [m] does, and whether it returns or raises, the
    context it leaves is related by [R] to the one it started from. *)
Definition frame {A} (R : Context -> Context -> Prop) (m : M A) : Prop :=
  forall c, R c (fst (m c)).

(** ** The context only grows *)

(** [extends P E c c']: the tree and the schema are the same, and findings,
    index entries and trace events were only appended; the appended findings
    all satisfy [P] and the appended events all satisfy [E]. *)
Definition extends (P : Finding -> Prop) (E : Event -> Prop)
  (c c' : Context) : Prop :=
  root c' = root c /\ schema c' = schema c /\
  (exists fs, findings c' = findings c ++ fs /\ Forall P fs) /\
  (exists ix, card_index c' = card_index c ++ ix) /\
  (exists tr, trace c' = trace c ++ tr /\ Forall E tr).

Definition any_finding (f : Finding) : Prop := True.

Definition any_event (e : Event) : Prop := True.

Definition event_id (e : Event) : json :=
  match e with
  | EvLookup card_id => card_id
  | EvScan card_id => card_id
  end.

(** Events about a truthy id. *)
Definition truthy_event (e : Event) : Prop := truthy (event_id e) = true.


(** A field on which a string method can be called after [or ""]: a string,
    or any falsy value. *)
Definition str_or_falsy (v : json) : bool :=
  match v with
  | JStr _ => true
  | _ => negb (truthy v)
  end.

(** Findings other than "cards must be a list". *)
Definition not_cards_list (f : Finding) : Prop :=
  f_message f <> MCardsNotList.

(** The messages of the hero check, of the loop over [cards] and of the
    checks after the loop. *)
Definition hero_msg (m : Message) : Prop :=
  match m with
  | MHeroMissing | MHeroNotFound _ | MHeroNotHero _ _ | MDeckFaction _ _ =>
      True
  | _ => False
  end.

Definition entry_msg (m : Message) : Prop :=
  match m with
  | MEntryNotObject _ | MEntryInvalid _ | MCardNotFound _ _
  | MCardFaction _ _ _ _ | MToken _ _ => True
  | _ => False
  end.

Definition totals_msg (m : Message) : Prop :=
  match m with
  | MDeckSize _ _ _ | MTooManyCopies _ _ _ | MTooManyRare _ _
  | MTooManyUnique _ _ | MHeroCopies _ => True
  | _ => False
  end.



(** ** The write paths of the card index *)

(** One run of an operation that can touch the index, from context [c]. *)
Inductive index_step (c : Context) : Context -> Prop :=
| step_card_file path data :
    index_step c (fst (validate_card_file path data c))
| step_collection_file path data :
    index_step c (fst (validate_collection_file path data c))
| step_load_card_meta card_id :
    index_step c (fst (_load_card_meta card_id c))
| step_deck_file path data :
    index_step c (fst (validate_deck_file path data c)).

(** Any sequence of such operations. *)
Inductive index_steps (c : Context) : Context -> Prop :=
| steps_done : index_steps c c
| steps_next c1 c2 :
    index_steps c c1 -> index_step c1 c2 -> index_steps c c2.

Definition add_findings (c : Context) (fs : list Finding) : Context :=
  mkContext (root c) (schema c) (findings c ++ fs) (card_index c) (trace c).

Definition add_events (c : Context) (evs : list Event) : Context :=
  mkContext (root c) (schema c) (findings c) (card_index c) (trace c ++ evs).

(** * Concrete documents used as examples *)

Definition ex_schema : Schema :=
  mkSchema (mkCardRule [] None [])
    (mkCollectionRule [] None None)
    (mkDeckRule [] (mkConstraints None None None None None None None)).

Definition ex_card_path : Path :=
  mkPath ["CARDS"; "en"; "CORE"; "AX"; "cards.json"] ".json".

Definition ex_deck_path : Path := mkPath ["DECKS"; "deck.json"] ".json".

Definition ex_collection_path : Path :=
  mkPath ["COLLECTION"; "mine.json"] ".json".

(** A freshly created context over an empty tree. *)
Definition ex_ctx : Context := mkContext [] ex_schema [] [] [].

(** [{"id": "C1", "type": "Hero", "faction": "AX"}] *)
Definition ex_hero : obj :=
  [("id", JStr "C1"); ("type", JStr "Hero"); ("faction", JStr "AX")].

(** A later record with the same id and different content. *)
Definition ex_hero_dup : obj :=
  [("id", JStr "C1"); ("type", JStr "Spell"); ("name", JStr "Other")].

(** [{"id": "C2", "type": "token"}] *)
Definition ex_token : obj := [("id", JStr "C2"); ("type", JStr "token")].

(** The context after the card pass has indexed [ex_hero] and [ex_token]. *)
Definition ex_indexed : Context :=
  mkContext [] ex_schema [] [(JStr "C1", ex_hero); (JStr "C2", ex_token)] [].

(** A collection element without [count]: [{"name": "x"}] *)
Definition ex_no_count : json := JObj [("name", JStr "x")].




(** Decks whose [cards] value is falsy: [null], [false], [0], [""]. *)
Definition ex_deck_cards (v : json) : json :=
  JObj [("hero_id", JStr "C1"); ("cards", v)].

(** A context over a tree with one card file holding [ex_hero] and
    [ex_token]; nothing is indexed yet. *)
Definition ex_tree_ctx : Context :=
  mkContext [(ex_card_path, JList [JObj ex_hero; JObj ex_token])]
    ex_schema [] [] [].

(** Card files with a non-string field:
    [{"id": "C1", "type": 5}] and [{"id": 7, "type": "hero"}]. *)
Definition ex_card_numeric_type : json :=
  JObj [("id", JStr "C1"); ("type", JInt 5)].

Definition ex_card_numeric_id : json :=
  JObj [("id", JInt 7); ("type", JStr "hero")].

(** Decks without a usable hero: [hero_id] is [""], one card entry. *)
Definition ex_deck_no_hero : obj :=
  [("hero_id", JStr "");
   ("cards", JList [JObj [("card_id", JStr "C1"); ("qty", JInt 1)]])].

(** * Resolution and shapes, as the specification speaks of them *)

(** What a lookup of [card_id] yields in context [c]: the indexed record, or
    else the first match of the tree search. *)
Definition resolve (c : Context) (card_id : json) : option obj :=
  match index_lookup card_id (card_index c) with
  | Some meta => Some meta
  | None => scan_tree card_id (root c)
  end.

(** Two contexts in which every id resolves alike. *)
Definition same_resolve (c c' : Context) : Prop :=
  forall x, resolve c' x = resolve c x.

(** A well-shaped card entry: an object with a non-empty (truthy) [card_id]
    and an integer [qty]; gives the id and the quantity. *)
Definition well_shaped (entry : json) : option (json * Z) :=
  match entry with
  | JObj e =>
      if truthy (py_get e "card_id")
      then match as_int (py_get e "qty") with
           | Some q => Some (py_get e "card_id", q)
           | None => None
           end
      else None
  | _ => None
  end.



(** ** The types the validators assume *)

Definition hashable_or_falsy (v : json) : bool :=
  (hashable v || negb (truthy v))%bool.

(** A card record on which the deck validator's string methods and
    dictionary accesses succeed. *)
Definition wt_card (o : obj) : bool :=
  (str_or_falsy (py_get o "type") && str_or_falsy (py_get o "faction")
   && str_or_falsy (py_get o "rarity")
   && hashable_or_falsy (py_get o "name")
   && hashable_or_falsy (py_get o "title"))%bool.

(** The objects the tree search can return. *)
Fixpoint list_objects (l : list json) : list obj :=
  match l with
  | [] => []
  | JObj o :: l' => o :: list_objects l'
  | _ :: l' => list_objects l'
  end.

Fixpoint tree_objects (files : list (Path * json)) : list obj :=
  match files with
  | [] => []
  | (_, JObj o) :: rest => o :: tree_objects rest
  | (_, JList l) :: rest => list_objects l ++ tree_objects rest
  | _ :: rest => tree_objects rest
  end.

Definition wt_ctx (c : Context) : bool :=
  (forallb (fun kv => wt_card (snd kv)) (card_index c)
   && forallb wt_card (tree_objects (root c)))%bool.

Definition wt_entry (entry : json) : bool :=
  match well_shaped entry with
  | Some (cid, _) => hashable cid
  | None => true
  end.

(** A deck object whose [faction] is a string or falsy, whose [hero_id] is
    a scalar or falsy and whose well-shaped entries have scalar ids. *)
Definition wt_deck (d : obj) (cards : list json) : bool :=
  (str_or_falsy (py_get d "faction")
   && hashable_or_falsy (py_get d "hero_id")
   && forallb wt_entry cards)%bool.

(** The findings of the checks after the loop, one list per check. *)
Definition size_findings (path : Path) (cons : Constraints) (acc : DeckAcc)
  : list Finding :=
  let min_cards := default 40%Z (c_min_cards cons) in
  let max_cards := default 60%Z (c_max_cards cons) in
  if ((total_qty acc <? min_cards)%Z || (total_qty acc >? max_cards)%Z)%bool
  then [mkFinding path ERROR (MDeckSize (total_qty acc) min_cards max_cards)]
  else [].

Definition hero_copies_findings (path : Path) (cons : Constraints)
  (acc : DeckAcc) : list Finding :=
  if (default true (c_unique_hero cons) && negb (hero_seen acc =? 1)%Z)%bool
  then [mkFinding path ERROR (MHeroCopies (hero_seen acc))]
  else [].


(** The messages reported before the checks after the loop. *)
Definition pre_msg (m : Message) : Prop :=
  match m with
  | MDeckMissingField _ => True
  | _ => hero_msg m \/ entry_msg m
  end.

(** A deck over [ex_indexed]: the hero once and 39 copies of the token. *)
Definition ex_deck : obj :=
  [("hero_id", JStr "C1"); ("faction", JStr "AX");
   ("cards", JList [JObj [("card_id", JStr "C1"); ("qty", JInt 1)];
                    JObj [("card_id", JStr "C2"); ("qty", JInt 39)]])].


(** * Further notions: computations that only report *)

(** [reports P m]: from every context [m] returns normally, and all it does
    is append findings that satisfy [P]. *)
Definition reports {A} (P : Finding -> Prop) (m : M A) : Prop :=
  forall c, exists fs a,
    m c = (add_findings c fs, Ok a) /\ Forall P fs.

(** Findings about the file at [path]. *)
Definition on_path (path : Path) (f : Finding) : Prop := f_path f = path.

(** [runs_on_findings m]: whether it returns or raises, all [m] does to the
    context is append findings. *)
Definition runs_on_findings {A} (m : M A) : Prop :=
  forall c, exists fs r, m c = (add_findings c fs, r).

(** * Card files: the field types the validator assumes *)

(** [allowed_rarities] is configured and not empty. *)
Definition rarities_checked (rule : CardRule) : bool :=
  match allowed_rarities rule with [] => false | _ => true end.

(** An element of a card file on which every call of the loop body
    succeeds: not an object, or an object whose [id] and [type] are strings
    or falsy and, when rarities are checked, whose [rarity] is too. *)
Definition card_item_typed (rule : CardRule) (item : json) : bool :=
  match item with
  | JObj o =>
      (str_or_falsy (py_get o "id")
       && (negb (rarities_checked rule) || str_or_falsy (py_get o "rarity"))
       && str_or_falsy (py_get_d o "type" (JStr "")))%bool
  | _ => true
  end.

Definition card_file_typed (rule : CardRule) (data : json) : bool :=
  (is_load_error data || forallb (card_item_typed rule) (items_of data))%bool.

(** * The card pass *)

(** The first loop of [scan_and_validate]: every file of the [CARDS] tree
    that looks like a card file is validated, which indexes its cards. *)
Definition scan_cards : M unit :=
  ctx <- get_ctx ;;
  for_each (root ctx) (fun f =>
    when (looks_like_card_file (fst f))
      (validate_card_file (fst f) (snd f))).

(** The index files every record under the record's own [id]. *)
Definition index_ok (c : Context) : Prop :=
  forall k m, In (k, m) (card_index c) -> py_eq (py_get m "id") k = true.

Definition keeps_index_ok (c c' : Context) : Prop :=
  index_ok c -> index_ok c'.

(** The documents that [load_json] makes up for unreadable files carry the
    key [__load_error__] and no [id]. *)
Definition plain_load_errors (files : list (Path * json)) : bool :=
  forallb (fun f =>
             match snd f with
             | JObj o => (negb (py_in "__load_error__" o)
                          || negb (py_in "id" o))%bool
             | _ => true
             end) files.

(** * Deck files: the counters behind the caps *)

(** The two flags of [rarity_flags], on a record it accepts. *)
Definition is_rare (meta : obj) : bool :=
  match rarity_flags meta with
  | Ok flags => fst flags
  | Raise _ => false
  end.

Definition is_unique (meta : obj) : bool :=
  match rarity_flags meta with
  | Ok flags => snd flags
  | Raise _ => false
  end.

(** The sum of [qty] over the well-shaped entries that resolve to a record
    that [counts]. *)
Fixpoint counted_copies (counts : obj -> bool) (c : Context)
  (cards : list json) : Z :=
  match cards with
  | [] => 0
  | entry :: rest =>
      match well_shaped entry with
      | Some (cid, q) =>
          match found (resolve c cid) with
          | Some meta =>
              if counts meta then q + counted_copies counts c rest
              else counted_copies counts c rest
          | None => counted_copies counts c rest
          end
      | None => counted_copies counts c rest
      end
  end.

(** The findings of the copy, rarity and unique caps. *)
Definition copies_findings (path : Path) (cons : Constraints) (acc : DeckAcc)
  : list Finding :=
  let max_same := default 3%Z (c_max_same_card cons) in
  map (fun nc =>
         mkFinding path ERROR (MTooManyCopies max_same (fst nc) (snd nc)))
    (filter (fun nc => (snd nc >? max_same)%Z) (name_counts acc)).

Definition rare_findings (path : Path) (cons : Constraints) (acc : DeckAcc)
  : list Finding :=
  let max_rare := default 15%Z (c_max_rare_cards cons) in
  if (rare_count acc >? max_rare)%Z
  then [mkFinding path ERROR (MTooManyRare (rare_count acc) max_rare)]
  else [].

Definition unique_findings (path : Path) (cons : Constraints) (acc : DeckAcc)
  : list Finding :=
  let max_unique := default 3%Z (c_max_unique_cards cons) in
  if (unique_count acc >? max_unique)%Z
  then [mkFinding path ERROR (MTooManyUnique (unique_count acc) max_unique)]
  else [].

(** A rare card (the rarity is written in lower case), a card flagged
    [unique], and a deck over an index that holds them: the hero once, 16
    copies of the rare card and 4 of the unique one. *)
Definition ex_rare : obj :=
  [("id", JStr "R1"); ("type", JStr "spell"); ("rarity", JStr "r")].

Definition ex_unique : obj :=
  [("id", JStr "U1"); ("type", JStr "spell"); ("unique", JBool true)].

Definition ex_rarity_ctx : Context :=
  mkContext [] ex_schema []
    [(JStr "C1", ex_hero); (JStr "R1", ex_rare); (JStr "U1", ex_unique)] [].

Definition ex_rarity_cards : list json :=
  [JObj [("card_id", JStr "C1"); ("qty", JInt 1)];
   JObj [("card_id", JStr "R1"); ("qty", JInt 16)];
   JObj [("card_id", JStr "U1"); ("qty", JInt 4)]].

Definition ex_rarity_deck : obj :=
  [("hero_id", JStr "C1"); ("faction", JStr "AX");
   ("cards", JList ex_rarity_cards)].

(** The copies counted under the display name [nm]: the sum of [qty] over
    the well-shaped entries that resolve and whose display name equals
    [nm]; and whether there is such an entry at all. *)
Fixpoint name_copies (c : Context) (nm : json) (cards : list json) : Z :=
  match cards with
  | [] => 0
  | entry :: rest =>
      match well_shaped entry with
      | Some (cid, q) =>
          match found (resolve c cid) with
          | Some meta =>
              if py_eq (display_name meta cid) nm
              then q + name_copies c nm rest
              else name_copies c nm rest
          | None => name_copies c nm rest
          end
      | None => name_copies c nm rest
      end
  end.

Fixpoint named (c : Context) (nm : json) (cards : list json) : bool :=
  match cards with
  | [] => false
  | entry :: rest =>
      match well_shaped entry with
      | Some (cid, q) =>
          match found (resolve c cid) with
          | Some meta =>
              (py_eq (display_name meta cid) nm || named c nm rest)%bool
          | None => named c nm rest
          end
      | None => named c nm rest
      end
  end.

(** A dictionary holds each key once. *)
Fixpoint distinct_keys {V} (idx : list (json * V)) : Prop :=
  match idx with
  | [] => True
  | (k, _) :: rest =>
      py_eq k k = true /\ index_lookup k rest = None /\ distinct_keys rest
  end.

(** * The other path tests, the summary and the exit status *)

Definition looks_like_collection_file (p : Path) : bool :=
  (str_mem "COLLECTION" (parts p) && is_json p)%bool.

Definition looks_like_deck_file (p : Path) : bool :=
  (str_mem "DECKS" (parts p) && is_json p)%bool.

Definition looks_like_rules_file (p : Path) : bool :=
  (str_mem "RULES" (parts p)
   && (is_json p || (str_lower (suffix p) =? ".pdf")))%bool.

Definition is_error (f : Finding) : bool :=
  match f_level f with ERROR => true | WARN => false end.

Definition is_warn (f : Finding) : bool :=
  match f_level f with WARN => true | ERROR => false end.

(** [Context.has_errors] and [Context.has_warnings] *)
Definition has_errors (c : Context) : bool := existsb is_error (findings c).

Definition has_warnings (c : Context) : bool := existsb is_warn (findings c).

(** What [print_summary] prints after the findings: the number of indexed
    cards, the two counts and the result word. *)
Inductive Result : Type := FAIL | OK.

Record Summary : Type := mkSummary
  { indexed_cards : nat;
    n_errors : nat;
    n_warnings : nat;
    result : Result }.

Definition print_summary (c : Context) (strict : bool) : Summary :=
  let errs := filter is_error (findings c) in
  let warns := filter is_warn (findings c) in
  mkSummary (List.length (card_index c)) (List.length errs)
    (List.length warns)
    (match errs with
     | _ :: _ => FAIL
     | [] => if strict then match warns with _ :: _ => FAIL | [] => OK end
             else OK
     end).

(** The argument of the [sys.exit] that ends [main] after the scan. *)
Definition exit_code (c : Context) (strict : bool) : Z :=
  if (has_errors c || (strict && has_warnings c))%bool then 1 else 0.

(** The second and the fourth loop of [scan_and_validate], over the files
    their globs yield. *)
Definition scan_collections (files : list (Path * json)) : M unit :=
  for_each files (fun f =>
    when (looks_like_collection_file (fst f))
      (validate_collection_file (fst f) (snd f))).

Definition scan_decks (files : list (Path * json)) : M unit :=
  for_each files (fun f =>
    when (looks_like_deck_file (fst f))
      (validate_deck_file (fst f) (snd f))).

(** * Deck files: footprint and typing *)

(** An ERROR about the file at [path]. *)
Definition error_on (path : Path) (f : Finding) : Prop :=
  f_path f = path /\ f_level f = ERROR.

(** A document on which every call of the deck validator succeeds in a
    well-typed context: not an object, a load-error marker, or an object
    whose [faction] is a string or falsy and, when [cards] is a list, whose
    [hero_id] and card ids are scalars. *)
Definition deck_typed (data : json) : bool :=
  match data with
  | JObj d =>
      (py_in "__load_error__" d
       || (str_or_falsy (py_get d "faction")
           && match py_or (py_get d "cards") (JList []) with
              | JList cards =>
                  hashable_or_falsy (py_get d "hero_id")
                  && forallb wt_entry cards
              | _ => true
              end))%bool
  | _ => true
  end.

(** * After the card pass *)

(** The index is complete: what the tree search can find for a truthy id is
    already bound. *)
Definition complete (c : Context) : Prop :=
  forall k, truthy k = true ->
    index_lookup k (card_index c) = None -> scan_tree k (root c) = None.

(** From a complete index on, the index and the tree stay as they are. *)
Definition keeps_index (c c' : Context) : Prop :=
  complete c -> card_index c' = card_index c /\ root c' = root c.


(** * Deck files: the faction rule *)

(** The position of the card entry a finding of the loop is about. *)
Definition msg_index (m : Message) : option nat :=
  match m with
  | MEntryNotObject i | MEntryInvalid i | MCardNotFound i _
  | MCardFaction i _ _ _ | MToken i _ => Some i
  | _ => None
  end.

(** [hero_faction] as the hero check leaves it: the upper-cased faction of
    the record a truthy [hero_id] resolves to, [None] otherwise. *)
Definition hero_faction (c : Context) (hero_id : json) : option string :=
  if truthy hero_id
  then match found (resolve c hero_id) with
       | Some hero_meta =>
           match upper_field hero_meta "faction" with
           | Ok s => Some s
           | Raise _ => None
           end
       | None => None
       end
  else None.

(** A card of another faction (written in lower case) and a deck that
    plays two copies of it beside its hero of faction [AX]. *)
Definition ex_foreign : obj :=
  [("id", JStr "F1"); ("type", JStr "spell"); ("faction", JStr "ly")].

Definition ex_faction_ctx : Context :=
  mkContext [] ex_schema []
    [(JStr "C1", ex_hero); (JStr "F1", ex_foreign)] [].



(** * Deck files: the hero check *)

(** The findings of the hero check, given what [hero_id] resolves to. *)
Definition hero_findings (path : Path) (c : Context) (hero_id : json)
  (deck_faction : string) : list Finding :=
  if negb (truthy hero_id) then [mkFinding path ERROR MHeroMissing]
  else
    match found (resolve c hero_id) with
    | None => [mkFinding path ERROR (MHeroNotFound hero_id)]
    | Some hero_meta =>
        match norm_type (py_get_d hero_meta "type" (JStr "")),
              upper_field hero_meta "faction" with
        | Ok t, Ok hero_faction =>
            (if negb (t =? "hero")
             then [mkFinding path ERROR
                     (MHeroNotHero hero_id (py_get hero_meta "type"))]
             else [])
            ++ (if (negb (deck_faction =? "") && negb (hero_faction =? "")
                    && negb (deck_faction =? hero_faction))%bool
                then [mkFinding path ERROR
                        (MDeckFaction deck_faction hero_faction)]
                else [])
        | _, _ => []
        end
    end.


Definition ex_unknown_hero_deck : obj :=
  [("hero_id", JStr "Z9"); ("faction", JStr "ax"); ("cards", JList [])].

(** * Card files: the findings of one element *)

Definition required_findings (rule : CardRule) (path : Path) (i : nat)
  (o : obj) : list Finding :=
  map (fun f => mkFinding path ERROR (MMissingField i f))
    (filter (fun f => negb (py_in f o)) (card_required_fields rule)).

Definition rarity_findings (rule : CardRule) (path : Path) (i : nat)
  (o : obj) : list Finding :=
  match py_get o "rarity" with
  | JStr r =>
      if (rarities_checked rule && negb (r =? "")
          && negb (str_mem (str_upper r) (allowed_rarities rule)))%bool
      then [mkFinding path WARN
              (MRarityNotAllowed i (JStr r) (allowed_rarities rule))]
      else []
  | _ => []
  end.

Definition type_findings (path : Path) (i : nat) (o : obj) : list Finding :=
  match norm_type (py_get_d o "type" (JStr "")) with
  | Ok t => if (t =? "") then [mkFinding path WARN (MEmptyType i)] else []
  | Raise _ => []
  end.

(** A card rule with required fields and allowed rarities, and a card that
    lacks [name], has a rarity outside the list and a blank type. *)
Definition ex_card_rule : CardRule :=
  mkCardRule ["id"; "name"; "type"] None ["C"; "R"; "U"].

Definition ex_card_partial : obj :=
  [("id", JStr "C1"); ("rarity", JStr "x"); ("type", JStr "  ")].

(** * Reasoning about computations *)

Section Frames.
Context (R : Context -> Context -> Prop) `{FrameRel R}.

Lemma frame_ret {A} (a : A) : frame R (ret a).
Proof. intro c. apply frame_refl. Qed.

Lemma frame_raise {A} (e : exn) : frame R (@raise A e).
Proof. intro c. apply frame_refl. Qed.

Lemma frame_lift {A} (r : outcome A) : frame R (lift r).
Proof. intro c. apply frame_refl. Qed.

Lemma frame_get : frame R get_ctx.
Proof. intro c. apply frame_refl. Qed.

Lemma frame_bind {A B} (m : M A) (k : A -> M B) :
  frame R m -> (forall a, frame R (k a)) -> frame R (bind m k).
Proof.
  intros Hm Hk c. unfold bind. specialize (Hm c).
  destruct (m c) as [c1 [a | e]]; simpl in *.
  - eapply frame_trans; [exact Hm | apply Hk].
  - exact Hm.
Qed.

Lemma frame_when (b : bool) (m : M unit) :
  (b = true -> frame R m) -> frame R (when b m).
Proof. destruct b; simpl; intro Hm; [auto | apply frame_ret]. Qed.

Lemma frame_for_each {A} (xs : list A) (body : A -> M unit) :
  (forall x, In x xs -> frame R (body x)) -> frame R (for_each xs body).
Proof.
  induction xs as [| x xs IH]; simpl; intro Hb.
  - apply frame_ret.
  - apply frame_bind; [apply Hb; now left |].
    intros _. apply IH. intros y Hy. apply Hb. now right.
Qed.

Lemma frame_for_enum {A St} (xs : list A) (body : nat -> A -> St -> M St) :
  (forall i x s, In x xs -> frame R (body i x s)) ->
  forall i s, frame R (for_enum i xs s body).
Proof.
  induction xs as [| x xs IH]; simpl; intros Hb i s.
  - apply frame_ret.
  - apply frame_bind; [apply Hb; now left |].
    intros s'. apply IH. intros j y t Hy. apply Hb. now right.
Qed.
End Frames.

#[export] Instance extends_frame (P : Finding -> Prop) (E : Event -> Prop) :
  FrameRel (extends P E).
Proof.
  split.
  - intro c. repeat split; try (exists []; rewrite app_nil_r; auto).
  - intros a b c
      (Hr1 & Hs1 & (f1 & Hf1 & HP1) & (i1 & Hi1) & (t1 & Ht1 & HE1))
      (Hr2 & Hs2 & (f2 & Hf2 & HP2) & (i2 & Hi2) & (t2 & Ht2 & HE2)).
    repeat split; try congruence.
    + exists (f1 ++ f2). rewrite Hf2, Hf1, app_assoc. split; auto.
      apply Forall_app; auto.
    + exists (i1 ++ i2). now rewrite Hi2, Hi1, app_assoc.
    + exists (t1 ++ t2). rewrite Ht2, Ht1, app_assoc. split; auto.
      apply Forall_app; auto.
Qed.

Lemma frame_add (P : Finding -> Prop) (E : Event -> Prop) (p : Path)
  (l : Level) (m : Message) :
  P (mkFinding p l m) -> frame (extends P E) (add p l m).
Proof.
  intros HP c. unfold add; simpl. repeat split; simpl.
  - exists [mkFinding p l m]. split; auto.
  - exists []. now rewrite app_nil_r.
  - exists []. rewrite app_nil_r. auto.
Qed.

Lemma frame_log (P : Finding -> Prop) (E : Event -> Prop) (e : Event) :
  E e -> frame (extends P E) (log e).
Proof.
  intros HE c. unfold log; simpl. repeat split; simpl.
  - exists []. rewrite app_nil_r. auto.
  - exists []. now rewrite app_nil_r.
  - exists [e]. auto.
Qed.

(** ** The index as a dictionary *)

Lemma index_lookup_app {V} (k : json) (a b : list (json * V)) :
  index_lookup k (a ++ b) =
  match index_lookup k a with
  | Some v => Some v
  | None => index_lookup k b
  end.
Proof.
  induction a as [| [k' v'] a IH]; simpl; auto.
  destruct (py_eq k' k); auto.
Qed.

(** Assigning to a key that is not in the dictionary appends it. *)
Lemma index_set_absent {V} (k : json) (v : V) (idx : list (json * V)) :
  index_lookup k idx = None -> index_set k v idx = idx ++ [(k, v)].
Proof.
  induction idx as [| [k' v'] idx IH]; simpl; auto.
  destruct (py_eq k' k); [discriminate |].
  intro Hn. now rewrite IH.
Qed.

Lemma index_setdefault_app {V} (k : json) (v : V) (idx : list (json * V)) :
  exists ix, index_setdefault k v idx = idx ++ ix.
Proof.
  unfold index_setdefault. destruct (index_lookup k idx) eqn:E.
  - exists []. now rewrite app_nil_r.
  - exists [(k, v)]. now apply index_set_absent.
Qed.

Lemma frame_set_card_absent (P : Finding -> Prop) (E : Event -> Prop)
  (k : json) (o : obj) (c : Context) :
  index_lookup k (card_index c) = None ->
  extends P E c (fst (set_card k o c)).
Proof.
  intro Hk. unfold set_card; simpl. repeat split; simpl.
  - exists []. rewrite app_nil_r. auto.
  - exists [(k, o)]. now apply index_set_absent.
  - exists []. rewrite app_nil_r. auto.
Qed.

Lemma frame_setdefault_card (P : Finding -> Prop) (E : Event -> Prop)
  (cid : json) (o : obj) :
  frame (extends P E) (setdefault_card cid o).
Proof.
  intro c. unfold setdefault_card; simpl. repeat split; simpl.
  - exists []. rewrite app_nil_r. auto.
  - apply index_setdefault_app.
  - exists []. rewrite app_nil_r. auto.
Qed.

(** A lookup records only events about the id it is called with. *)
Lemma frame_load_card_meta (P : Finding -> Prop) (E : Event -> Prop)
  (card_id : json) :
  E (EvLookup card_id) -> E (EvScan card_id) ->
  frame (extends P E) (_load_card_meta card_id).
Proof.
  intros HL HS. unfold _load_card_meta.
  apply frame_bind; [typeclasses eauto | now apply frame_log |]. intros _.
  destruct (hashable card_id); simpl;
    [| apply frame_raise; typeclasses eauto].
  intro c. unfold bind, get_ctx; simpl.
  destruct (index_lookup card_id (card_index c)) eqn:Ek; simpl;
    [apply frame_refl |].
  destruct (scan_tree card_id (root c)) eqn:Es; simpl.
  - apply (frame_trans c (fst (log (EvScan card_id) c)));
      [apply (frame_log P E (EvScan card_id) HS c) |].
    apply (frame_set_card_absent P E card_id o
             (fst (log (EvScan card_id) c))).
    exact Ek.
  - apply (frame_log P E (EvScan card_id) HS c).
Qed.

(** Solves [frame (extends P E) m] for the validators: follows the structure
    of [m], leaving the side conditions [P finding] of each [add]. *)
Ltac frame_rule :=
  match goal with
  | |- frame _ (bind _ _) => apply frame_bind
  | |- frame _ (ret _) => apply frame_ret
  | |- frame _ (raise _) => apply frame_raise
  | |- frame _ (lift _) => apply frame_lift
  | |- frame _ get_ctx => apply frame_get
  | |- frame _ (when false _) => apply frame_ret
  | |- frame _ (when _ _) => apply frame_when
  | |- frame _ (for_each _ _) => apply frame_for_each
  | |- frame _ (for_enum _ _ _ _) => apply frame_for_enum
  | |- frame (extends _ _) (add _ _ _) => apply frame_add
  | |- frame (extends _ _) (log _) => apply frame_log
  | |- frame (extends _ _) (setdefault_card _ _) =>
      apply frame_setdefault_card
  | |- frame (extends _ _) (_load_card_meta _) => apply frame_load_card_meta
  | |- frame _ (if ?b then _ else _) => destruct b eqn:?
  | |- frame _ (match ?x with _ => _ end) => destruct x eqn:?
  | |- frame _ (let _ := _ in _) => cbv zeta
  | |- frame _ ((fun _ => _) _) => cbv beta
  end.

Ltac frame_step := frame_rule; try typeclasses eauto; intros.

Ltac frame_tac :=
  repeat frame_step;
  try exact I;
  try (cbv beta; simpl; intros; discriminate).

(** ** Every validator only appends to the context *)

Lemma validate_card_item_grows rule path id_re i item :
  frame (extends any_finding any_event) (validate_card_item rule path id_re i item).
Proof.
  unfold validate_card_item, card_required, card_id_check, card_rarity_check,
    card_type_check.
  frame_tac.
Qed.

Lemma validate_card_file_grows path data :
  frame (extends any_finding any_event) (validate_card_file path data).
Proof.
  unfold validate_card_file. frame_tac.
  apply validate_card_item_grows.
Qed.

Lemma validate_collection_file_grows path data :
  frame (extends any_finding any_event) (validate_collection_file path data).
Proof.
  unfold validate_collection_file, validate_collection_item,
    collection_required, collection_count_check.
  frame_tac.
Qed.

(** The three stages of the deck validator report only their own kinds of
    messages, on the deck's path. *)
Lemma hero_check_frame (P : Finding -> Prop) (E : Event -> Prop) path
  hero_id deck_faction :
  (forall l m, hero_msg m -> P (mkFinding path l m)) ->
  (truthy hero_id = true -> E (EvLookup hero_id) /\ E (EvScan hero_id)) ->
  frame (extends P E) (hero_check path hero_id deck_faction).
Proof.
  intros HP HE. unfold hero_check. frame_tac;
    try (apply HP; exact I);
    apply HE; now apply negb_false_iff.
Qed.

Lemma deck_entry_frame (P : Finding -> Prop) (E : Event -> Prop) path
  hero_id hero_faction same i entry acc :
  (forall l m, entry_msg m -> P (mkFinding path l m)) ->
  (forall cid, truthy cid = true -> E (EvLookup cid) /\ E (EvScan cid)) ->
  frame (extends P E) (deck_entry path hero_id hero_faction same i entry acc).
Proof.
  intros HP HE. unfold deck_entry, deck_entry_resolved. frame_tac;
    try (apply HP; exact I);
    apply HE;
    match goal with
    | H : (_ || _)%bool = false |- _ =>
        apply orb_false_iff in H; destruct H as [H _];
        now apply negb_false_iff in H
    end.
Qed.

Lemma deck_totals_frame (P : Finding -> Prop) (E : Event -> Prop) path cons
  acc :
  (forall l m, totals_msg m -> P (mkFinding path l m)) ->
  frame (extends P E) (deck_totals path cons acc).
Proof. intro HP. unfold deck_totals. frame_tac; apply HP; exact I. Qed.

Lemma deck_checks_frame (P : Finding -> Prop) (E : Event -> Prop) path cons
  hero_id deck_faction cards :
  (forall l m, hero_msg m \/ entry_msg m \/ totals_msg m ->
               P (mkFinding path l m)) ->
  (forall cid, truthy cid = true -> E (EvLookup cid) /\ E (EvScan cid)) ->
  frame (extends P E) (deck_checks path cons hero_id deck_faction cards).
Proof.
  intros HP HE. unfold deck_checks. frame_tac.
  - apply hero_check_frame; auto.
  - apply deck_entry_frame; auto.
  - apply deck_totals_frame; auto.
Qed.

Lemma validate_deck_file_grows path data :
  frame (extends any_finding any_event) (validate_deck_file path data).
Proof.
  unfold validate_deck_file. frame_tac.
  apply deck_checks_frame; intros; try split; exact I.
Qed.

(** A binding of the index survives every extension of the context. *)
Lemma extends_lookup (P : Finding -> Prop) (E : Event -> Prop)
  (c c' : Context) (k : json) (m : obj) :
  extends P E c c' ->
  index_lookup k (card_index c) = Some m ->
  index_lookup k (card_index c') = Some m.
Proof.
  intros (_ & _ & _ & (ix & Hix) & _) Hk.
  now rewrite Hix, index_lookup_app, Hk.
Qed.

Lemma index_step_extends c c' :
  index_step c c' -> extends any_finding any_event c c'.
Proof.
  intros [path data | path data | card_id | path data].
  - apply validate_card_file_grows.
  - apply validate_collection_file_grows.
  - apply frame_load_card_meta; exact I.
  - apply validate_deck_file_grows.
Qed.

Lemma index_steps_extends c c' :
  index_steps c c' -> extends any_finding any_event c c'.
Proof.
  induction 1 as [| c1 c2 _ IH Hstep].
  - apply frame_refl.
  - eapply frame_trans; [exact IH | now apply index_step_extends].
Qed.

(** C4: first-seen-wins on every write path.  Once an id is bound to a card
    record, no later run of the card-file validator, of the lazy-resolution
    fallback or of the deck validator (nor any sequence of them) overwrites
    or removes the binding, whatever content comes later for that id; the
    index is only ever extended at its end. *)
Theorem card_index_first_seen_wins (c c' : Context) (k : json) (m : obj) :
  index_lookup k (card_index c) = Some m ->
  index_steps c c' ->
  index_lookup k (card_index c') = Some m /\
  exists ix, card_index c' = card_index c ++ ix.
Proof.
  intros Hk Hsteps. apply index_steps_extends in Hsteps.
  split.
  - eapply extends_lookup; eauto.
  - now destruct Hsteps as (_ & _ & _ & Hix & _).
Qed.

(** ** Runs that only report *)

Lemma add_findings_nil c : add_findings c [] = c.
Proof. destruct c; unfold add_findings; simpl. now rewrite app_nil_r. Qed.

Lemma add_findings_app c a b :
  add_findings (add_findings c a) b = add_findings c (a ++ b).
Proof. unfold add_findings; simpl. now rewrite app_assoc. Qed.

Lemma add_run p l m c : add p l m c = (add_findings c [mkFinding p l m], Ok tt).
Proof. reflexivity. Qed.

(** A loop of guarded reports returns normally and appends only findings of
    the reported kind. *)
Lemma for_each_when_add {A} (xs : list A) (cond : A -> bool)
  (msg : A -> Message) (p : Path) (l : Level) (c : Context) :
  exists fs,
    for_each xs (fun x => when (cond x) (add p l (msg x))) c
      = (add_findings c fs, Ok tt) /\
    Forall (fun f => exists x, f = mkFinding p l (msg x)) fs.
Proof.
  revert c. induction xs as [| x xs IH]; intro c; simpl.
  - exists []. now rewrite add_findings_nil.
  - unfold bind. destruct (cond x).
    + change (when true (add p l (msg x)) c)
        with (add_findings c [mkFinding p l (msg x)], @Ok unit tt).
      destruct (IH (add_findings c [mkFinding p l (msg x)])) as (fs & Hrun & Hfs).
      exists (mkFinding p l (msg x) :: fs). rewrite Hrun, add_findings_app.
      split; auto. constructor; eauto.
    + change (when false (add p l (msg x)) c) with (c, @Ok unit tt).
      destruct (IH c) as (fs & Hrun & Hfs). exists fs. auto.
Qed.

(** ** Collection files: the count check *)




Lemma card_index_first_seen_wins_witness :
  index_lookup (JStr "C1")
    (card_index
       (fst (validate_card_file ex_card_path (JObj ex_hero_dup) ex_indexed)))
    = Some ex_hero /\
  exists ix,
    card_index
      (fst (validate_card_file ex_card_path (JObj ex_hero_dup) ex_indexed))
    = card_index ex_indexed ++ ix.
Proof.
  apply (card_index_first_seen_wins ex_indexed _ (JStr "C1") ex_hero).
  - reflexivity.
  - eapply steps_next; [apply steps_done | apply step_card_file].
Defined.

(** ** Card files: the identifier pattern *)



Lemma card_required_run rule path i o c :
  exists req,
    card_required rule path i o c = (add_findings c req, Ok tt) /\
    Forall (fun f => exists name,
              f = mkFinding path ERROR (MMissingField i name)) req.
Proof.
  unfold card_required.
  apply (for_each_when_add (card_required_fields rule)
           (fun f => negb (py_in f o)) (fun f => MMissingField i f)).
Qed.






(** ** Deck files: the structure gate on [cards] *)

Lemma str_or_falsy_or (v : json) :
  str_or_falsy v = true -> exists s, py_or v (JStr "") = JStr s.
Proof.
  unfold py_or. intro H. destruct (truthy v) eqn:T; [| eauto].
  destruct v; simpl in *; try discriminate;
    try (rewrite T in H; discriminate). eauto.
Qed.

Lemma upper_field_ok o k :
  str_or_falsy (py_get o k) = true -> exists s, upper_field o k = Ok s.
Proof.
  intro H. unfold upper_field.
  destruct (str_or_falsy_or _ H) as (s & ->). simpl. eauto.
Qed.

Lemma deck_required_run (fields : list string) path d c :
  exists req,
    for_each fields (fun f =>
      when (negb (py_in f d)) (add path ERROR (MDeckMissingField f))) c
      = (add_findings c req, Ok tt) /\
    Forall (fun f => exists name,
              f = mkFinding path ERROR (MDeckMissingField name)) req.
Proof.
  apply (for_each_when_add fields (fun f => negb (py_in f d))
           (fun f => MDeckMissingField f)).
Qed.

(** With a falsy [cards] value the validator goes on with an empty list and
    never reports "cards must be a list". *)
Lemma deck_cards_falsy_frame path d :
  truthy (py_get d "cards") = false ->
  frame (extends not_cards_list any_event) (validate_deck_file path (JObj d)).
Proof.
  intro Hfalsy. unfold validate_deck_file, py_or. rewrite Hfalsy.
  frame_tac; try (unfold not_cards_list; simpl; discriminate).
  apply deck_checks_frame; [| intros; split; exact I]. intros l m Hm.
  unfold not_cards_list; simpl. intros ->. simpl in Hm. tauto.
Qed.

(** C7 (amended): for a deck object that reaches the structure check (its
    [faction] is a string or falsy), a truthy [cards] value that is not a
    list makes the validator report the missing required fields, then the
    ERROR "cards must be a list", and return at once: nothing else is
    reported, looked up or counted.  A falsy [cards] value ([null], [false],
    [0], [""], an empty object) is read as the empty list: no such ERROR is
    reported. *)
Theorem deck_cards_gate path d c :
  py_in "__load_error__" d = false ->
  str_or_falsy (py_get d "faction") = true ->
  exists req,
    Forall (fun f => exists name,
              f = mkFinding path ERROR (MDeckMissingField name)) req /\
    (truthy (py_get d "cards") = true ->
     (forall l, py_get d "cards" <> JList l) ->
     validate_deck_file path (JObj d) c
     = (add_findings c (req ++ [mkFinding path ERROR MCardsNotList]),
        Ok tt)) /\
    (truthy (py_get d "cards") = false ->
     exists fs,
       findings (fst (validate_deck_file path (JObj d) c))
         = findings c ++ fs /\
       forall f, In f fs -> f_message f <> MCardsNotList).
Proof.
  intros Hload Hfac.
  destruct (deck_required_run (deck_required_fields (deck_file (schema c)))
              path d c) as (req & Hreq & Freq).
  exists req. split; [exact Freq |]. split.
  - intros Htruthy Hnl.
    unfold validate_deck_file, bind at 1, get_ctx.
    change (is_load_error (JObj d)) with (py_in "__load_error__" d).
    rewrite Hload. unfold bind at 1. rewrite Hreq.
    destruct (upper_field_ok d "faction" Hfac) as (s & Hs).
    unfold bind at 1, lift. rewrite Hs.
    unfold py_or. rewrite Htruthy.
    destruct (py_get d "cards") eqn:Ec;
      try (rewrite add_run, add_findings_app; reflexivity).
    exfalso. now apply (Hnl l).
  - intro Hfalsy.
    destruct (deck_cards_falsy_frame path d Hfalsy c)
      as (_ & _ & (fs & Hfs & Pfs) & _).
    exists fs. split; [exact Hfs |].
    intros f Hin. rewrite Forall_forall in Pfs. now apply Pfs.
Qed.

(** The claim as written fails on the falsy values it names: no "cards must
    be a list" is reported and the remaining checks run on an empty list. *)
Lemma deck_cards_falsy_no_error :
  Forall (fun v =>
    truthy v = false /\ (forall l, v <> JList l) /\
    validate_deck_file ex_deck_path (ex_deck_cards v) ex_indexed
    = (mkContext [] ex_schema
         [mkFinding ex_deck_path ERROR (MDeckSize 0 40 60);
          mkFinding ex_deck_path ERROR (MHeroCopies 0)]
         (card_index ex_indexed) [EvLookup (JStr "C1")], Ok tt))
    [JNull; JBool false; JInt 0; JStr ""].
Proof. repeat constructor; discriminate. Qed.

Lemma deck_cards_gate_witness :
  exists req,
    Forall (fun f => exists name,
              f = mkFinding ex_deck_path ERROR (MDeckMissingField name)) req /\
    (truthy (JInt 5) = true ->
     (forall l, JInt 5 <> JList l) ->
     validate_deck_file ex_deck_path (ex_deck_cards (JInt 5)) ex_indexed
     = (add_findings ex_indexed
          (req ++ [mkFinding ex_deck_path ERROR MCardsNotList]), Ok tt)) /\
    (truthy (JInt 5) = false ->
     exists fs,
       findings (fst (validate_deck_file ex_deck_path
                        (ex_deck_cards (JInt 5)) ex_indexed))
         = findings ex_indexed ++ fs /\
       forall f, In f fs -> f_message f <> MCardsNotList).
Proof.
  apply (deck_cards_gate ex_deck_path
           [("hero_id", JStr "C1"); ("cards", JInt 5)] ex_indexed);
    reflexivity.
Defined.

(** ** Lazy resolution: what is cached *)

Lemma Qeq_bool_refl (x : Q) : Qeq_bool x x = true.
Proof. apply Qeq_bool_iff. reflexivity. Qed.

(** A key equals itself. *)
Lemma py_eq_refl (k : json) : hashable k = true -> py_eq k k = true.
Proof.
  destruct k; simpl; try discriminate; intros _; auto using Qeq_bool_refl.
  apply String.eqb_refl.
Qed.

Lemma index_lookup_set {V} (k : json) (v : V) (idx : list (json * V)) :
  hashable k = true -> index_lookup k (index_set k v idx) = Some v.
Proof.
  intro Hk. induction idx as [| [k' v'] idx IH]; simpl.
  - now rewrite py_eq_refl.
  - destruct (py_eq k' k) eqn:E; simpl; now rewrite E.
Qed.

(** A lookup of an id that is bound in the index: the call is recorded,
    nothing is scanned, nothing changes. *)
Lemma load_card_meta_bound card_id c m :
  hashable card_id = true ->
  index_lookup card_id (card_index c) = Some m ->
  _load_card_meta card_id c
  = (add_events c [EvLookup card_id], Ok (Some m)).
Proof.
  intros Hh Hk. unfold _load_card_meta, bind, log, get_ctx; simpl.
  rewrite Hh; simpl. now rewrite Hk.
Qed.

(** A lookup that misses: the tree is scanned and nothing is cached. *)
Lemma load_card_meta_miss card_id c c1 :
  _load_card_meta card_id c = (c1, Ok None) ->
  index_lookup card_id (card_index c) = None /\
  scan_tree card_id (root c) = None /\
  hashable card_id = true /\
  c1 = add_events c [EvLookup card_id; EvScan card_id].
Proof.
  unfold _load_card_meta, bind, log, get_ctx; simpl.
  destruct (hashable card_id); simpl; [| discriminate].
  destruct (index_lookup card_id (card_index c)); simpl; [discriminate |].
  destruct (scan_tree card_id (root c)); simpl; [discriminate |].
  intro H. inversion H. unfold add_events; simpl.
  now rewrite <- app_assoc.
Qed.

(** A lookup that finds a card leaves the id bound to it. *)
Lemma load_card_meta_hit card_id c c1 m :
  _load_card_meta card_id c = (c1, Ok (Some m)) ->
  hashable card_id = true /\
  index_lookup card_id (card_index c1) = Some m.
Proof.
  unfold _load_card_meta, bind, log, get_ctx; simpl.
  destruct (hashable card_id) eqn:Hh; simpl; [| discriminate].
  destruct (index_lookup card_id (card_index c)) eqn:Hk; simpl.
  - intro H. inversion H; subst. simpl. auto.
  - destruct (scan_tree card_id (root c)); simpl; [| discriminate].
    intro H. inversion H; subst. simpl. split; auto.
    now apply index_lookup_set.
Qed.

(** C3 (amended): only hits are cached.  Once a lookup of an id has found a
    card, every later lookup of that id, after any further validator runs,
    is answered from the index with the same record and without a tree
    scan.  A lookup that misses caches nothing: the index is unchanged and
    the next lookup of that id scans the tree again (and misses again). *)
Theorem lazy_resolution_caches_hits card_id c c1 :
  (forall m, _load_card_meta card_id c = (c1, Ok (Some m)) ->
   forall c2, index_steps c1 c2 ->
     _load_card_meta card_id c2
     = (add_events c2 [EvLookup card_id], Ok (Some m))) /\
  (_load_card_meta card_id c = (c1, Ok None) ->
   card_index c1 = card_index c /\
   _load_card_meta card_id c1
   = (add_events c1 [EvLookup card_id; EvScan card_id], Ok None)).
Proof.
  split.
  - intros m Hrun c2 Hsteps.
    destruct (load_card_meta_hit _ _ _ _ Hrun) as (Hh & Hk).
    apply load_card_meta_bound; auto.
    eapply extends_lookup; [apply index_steps_extends |]; eauto.
  - intro Hrun.
    destruct (load_card_meta_miss _ _ _ Hrun) as (Hk & Hs & Hh & ->).
    split; [reflexivity |].
    unfold _load_card_meta, bind, log, get_ctx; simpl.
    rewrite Hh; simpl. rewrite Hk, Hs. simpl.
    unfold add_events; simpl. now rewrite <- !app_assoc.
Qed.

(** The claim as written fails: after a lookup of "X9" has missed, the
    second lookup of "X9" traverses the tree again. *)
Lemma lazy_resolution_rescans_after_miss :
  let first := _load_card_meta (JStr "X9") ex_tree_ctx in
  let second := _load_card_meta (JStr "X9") (fst first) in
  snd first = Ok None /\
  snd second = Ok None /\
  trace (fst second)
  = [EvLookup (JStr "X9"); EvScan (JStr "X9");
     EvLookup (JStr "X9"); EvScan (JStr "X9")].
Proof. repeat split. Qed.

Lemma lazy_resolution_caches_hits_witness :
  _load_card_meta (JStr "C1")
    (fst (_load_card_meta (JStr "C1") ex_tree_ctx))
  = (add_events (fst (_load_card_meta (JStr "C1") ex_tree_ctx))
       [EvLookup (JStr "C1")], Ok (Some ex_hero)).
Proof.
  apply (proj1 (lazy_resolution_caches_hits (JStr "C1") ex_tree_ctx
                  (fst (_load_card_meta (JStr "C1") ex_tree_ctx)))
           ex_hero).
  - reflexivity.
  - apply steps_done.
Defined.

(** ** Card files: exceptions *)

(** C9 (the code at the failing inputs): a card file whose [type] is the
    number 5 makes [norm_type] call [strip] on an [int], and a card file
    whose [id] is the number 7 makes [id_re.match] reject its argument; in
    both cases the validator raises instead of recording a finding. *)
Theorem validate_card_file_raises :
  validate_card_file ex_card_path ex_card_numeric_type ex_ctx
  = (with_card_index ex_ctx
       [(JStr "C1", [("id", JStr "C1"); ("type", JInt 5)])],
     Raise AttributeError) /\
  validate_card_file ex_card_path ex_card_numeric_id ex_ctx
  = (ex_ctx, Raise TypeError).
Proof. split; reflexivity. Qed.

(** ** Deck files: the stages after the structure checks *)

Lemma py_or_list (v : json) (cards : list json) :
  v = JList cards -> py_or v (JList []) = JList cards.
Proof. intros ->. unfold py_or. destruct cards; reflexivity. Qed.

(** A deck object that passes the structure checks reports its missing
    required fields and then runs [deck_checks]. *)
Lemma deck_file_stages path d cards c s :
  py_in "__load_error__" d = false ->
  upper_field d "faction" = Ok s ->
  py_or (py_get d "cards") (JList []) = JList cards ->
  exists req,
    Forall (fun f => exists name,
              f = mkFinding path ERROR (MDeckMissingField name)) req /\
    validate_deck_file path (JObj d) c
    = deck_checks path (constraints (deck_file (schema c)))
        (py_get d "hero_id") s cards (add_findings c req).
Proof.
  intros Hload Hs Hcards.
  destruct (deck_required_run (deck_required_fields (deck_file (schema c)))
              path d c) as (req & Hreq & Freq).
  exists req. split; [exact Freq |].
  unfold validate_deck_file, bind at 1, get_ctx.
  change (is_load_error (JObj d)) with (py_in "__load_error__" d).
  rewrite Hload. unfold bind at 1. rewrite Hreq.
  unfold bind at 1, lift. rewrite Hs, Hcards. reflexivity.
Qed.






(** ** Resolution is stable under lookups *)

Lemma Qeq_bool_congr (a b y : Q) :
  Qeq_bool a b = true -> Qeq_bool y a = Qeq_bool y b.
Proof.
  intro H. apply Qeq_bool_iff in H.
  destruct (Qeq_bool y a) eqn:Ea, (Qeq_bool y b) eqn:Eb; auto.
  - apply Qeq_bool_iff in Ea.
    assert (Qeq_bool y b = true)
      by (apply Qeq_bool_iff; now rewrite Ea, H).
    congruence.
  - apply Qeq_bool_iff in Eb.
    assert (Qeq_bool y a = true)
      by (apply Qeq_bool_iff; now rewrite Eb, H).
    congruence.
Qed.

(** Equal keys compare alike with every value. *)
Lemma py_eq_congr (k x y : json) :
  py_eq k x = true -> py_eq y k = py_eq y x.
Proof.
  intro H.
  destruct k, x; simpl in H; try discriminate;
    try (apply String.eqb_eq in H; subst; reflexivity);
    destruct y; simpl; try reflexivity;
    apply Qeq_bool_congr; exact H.
Qed.

Lemma find_in_list_congr (k x : json) (l : list json) :
  py_eq k x = true -> find_in_list x l = find_in_list k l.
Proof.
  intro H. induction l as [| v l IH]; simpl; auto.
  destruct v; auto.
  rewrite (py_eq_congr k x _ H), IH. reflexivity.
Qed.

Lemma scan_tree_congr (k x : json) (files : list (Path * json)) :
  py_eq k x = true -> scan_tree x files = scan_tree k files.
Proof.
  intro H. induction files as [| [p data] files IH]; simpl; auto.
  destruct (negb (looks_like_card_file p)); auto.
  destruct data; auto.
  - now rewrite (find_in_list_congr k x _ H), IH.
  - now rewrite (py_eq_congr k x _ H), IH.
Qed.

(** What a returning lookup yields, and what it leaves behind. *)
Lemma load_card_meta_resolve card_id c c1 r :
  _load_card_meta card_id c = (c1, Ok r) ->
  r = resolve c card_id /\
  hashable card_id = true /\
  findings c1 = findings c /\
  forall x, resolve c1 x = resolve c x.
Proof.
  unfold _load_card_meta, bind, log, get_ctx, resolve; simpl.
  destruct (hashable card_id) eqn:Hh; simpl; [| discriminate].
  destruct (index_lookup card_id (card_index c)) eqn:Hk; simpl.
  - intro H. inversion H; subst. simpl. auto.
  - destruct (scan_tree card_id (root c)) eqn:Hs; simpl.
    + intro H. inversion H; subst. simpl. repeat split; auto.
      intro x. rewrite (index_set_absent _ _ _ Hk), index_lookup_app.
      destruct (index_lookup x (card_index c)); auto. simpl.
      destruct (py_eq card_id x) eqn:Ex; auto.
      now rewrite (scan_tree_congr card_id x _ Ex), Hs.
    + intro H. inversion H; subst. simpl. auto.
Qed.

(** ** Deck files: one card entry *)

(** Takes apart a hypothesis [H : m c = (c', Ok a)] for a computation [m]
    built from the monad's operations. *)
Ltac run_inv H :=
  unfold bind, when, lift, ret, raise, add in H;
  cbv beta iota in H;
  repeat (match type of H with
          | context [match ?x with _ => _ end] =>
              lazymatch x with
              | context [match _ with _ => _ end] => fail
              | _ => destruct x eqn:?
              end
          end;
          cbv beta iota in H;
          try discriminate H);
  inversion H; subst; clear H.


(** ** Well-typed records: the validators return *)

Lemma norm_type_ok o :
  str_or_falsy (py_get o "type") = true ->
  exists t, norm_type (py_get_d o "type" (JStr "")) = Ok t.
Proof.
  unfold py_get, py_get_d, norm_type.
  destruct (dict_get o "type") as [v |]; intro H.
  - destruct (str_or_falsy_or _ H) as (s & ->). simpl. eauto.
  - simpl. eauto.
Qed.

Lemma rarity_flags_ok o :
  str_or_falsy (py_get o "rarity") = true ->
  exists flags, rarity_flags o = Ok flags.
Proof.
  intro H. unfold rarity_flags.
  destruct (upper_field_ok o "rarity" H) as (r & ->). eauto.
Qed.

Lemma display_name_hashable meta cid :
  hashable_or_falsy (py_get meta "name") = true ->
  hashable_or_falsy (py_get meta "title") = true ->
  hashable cid = true ->
  hashable (display_name meta cid) = true.
Proof.
  unfold display_name, py_or, hashable_or_falsy. intros Hn Ht Hc.
  destruct (truthy (py_get meta "name")) eqn:Tn.
  - rewrite orb_false_r in Hn. exact Hn.
  - destruct (truthy (py_get meta "title")) eqn:Tt; auto.
    rewrite orb_false_r in Ht. exact Ht.
Qed.

Lemma wt_card_fields o :
  wt_card o = true ->
  str_or_falsy (py_get o "type") = true /\
  str_or_falsy (py_get o "faction") = true /\
  str_or_falsy (py_get o "rarity") = true /\
  hashable_or_falsy (py_get o "name") = true /\
  hashable_or_falsy (py_get o "title") = true.
Proof.
  unfold wt_card. intro H.
  repeat (apply andb_true_iff in H; destruct H as [H ?]). auto.
Qed.

Lemma deck_entry_resolved_ok path hid hf same i cid q meta acc c :
  wt_card meta = true -> hashable cid = true ->
  exists fs acc',
    deck_entry_resolved path hid hf same i cid q meta acc c
    = (add_findings c fs, Ok acc').
Proof.
  intros Hwt Hc.
  destruct (wt_card_fields _ Hwt) as (Hty & Hfa & Hra & Hna & Hti).
  destruct (norm_type_ok _ Hty) as (t & Ht).
  destruct (upper_field_ok _ "faction" Hfa) as (cf & Hcf).
  destruct (rarity_flags_ok _ Hra) as (flags & Hfl).
  unfold deck_entry_resolved.
  rewrite (display_name_hashable _ _ Hna Hti Hc). simpl negb. cbv iota.
  unfold bind, lift, when, ret, add. rewrite Hfl, Hcf, Ht.
  destruct (same && faction_known hf)%bool;
    [destruct (negb (cf =? "") && negb (cf =? default "" hf))%bool |];
    destruct (t =? "token"); cbv beta iota;
    eexists; eexists;
    (first [ rewrite add_findings_nil; reflexivity
           | unfold add_findings; simpl; rewrite <- ?app_assoc;
             reflexivity ]).
Qed.

Lemma index_lookup_In {V} (k : json) (v : V) (idx : list (json * V)) :
  index_lookup k idx = Some v -> exists k', In (k', v) idx.
Proof.
  induction idx as [| [k' v'] idx IH]; simpl; [discriminate |].
  destruct (py_eq k' k).
  - intro H. inversion H; subst. eauto.
  - intro H. destruct (IH H) as (k0 & Hin). eauto.
Qed.

Lemma find_in_list_In (k : json) (l : list json) (o : obj) :
  find_in_list k l = Some o -> In o (list_objects l).
Proof.
  induction l as [| v l IH]; simpl; [discriminate |].
  destruct v; auto.
  destruct (py_eq (py_get o0 "id") k).
  - intro H. inversion H; subst. now left.
  - intro H. right. auto.
Qed.

Lemma scan_tree_In (k : json) (files : list (Path * json)) (o : obj) :
  scan_tree k files = Some o -> In o (tree_objects files).
Proof.
  induction files as [| [p data] files IH]; simpl; [discriminate |].
  destruct (negb (looks_like_card_file p)).
  - intro H. destruct data; auto; simpl; [apply in_or_app |]; auto.
  - destruct data; auto.
    + destruct (find_in_list k l) eqn:E.
      * intro H. inversion H; subst. apply in_or_app. left.
        now apply find_in_list_In with k.
      * intro H. apply in_or_app. auto.
    + destruct (py_eq (py_get o0 "id") k).
      * intro H. inversion H; subst. now left.
      * intro H. right. auto.
Qed.

Lemma wt_ctx_parts c :
  wt_ctx c = true <->
  (forall k m, In (k, m) (card_index c) -> wt_card m = true) /\
  (forall m, In m (tree_objects (root c)) -> wt_card m = true).
Proof.
  unfold wt_ctx. rewrite andb_true_iff, !forallb_forall. split.
  - intros [Hi Ht]. split; auto. intros k m Hin. apply (Hi (k, m) Hin).
  - intros [Hi Ht]. split; auto. intros [k m] Hin. apply (Hi k m Hin).
Qed.

Lemma wt_resolve c cid m :
  wt_ctx c = true -> resolve c cid = Some m -> wt_card m = true.
Proof.
  intros Hwt. apply wt_ctx_parts in Hwt. destruct Hwt as [Hi Ht].
  unfold resolve. destruct (index_lookup cid (card_index c)) eqn:E.
  - intro H. inversion H; subst.
    destruct (index_lookup_In _ _ _ E) as (k' & Hin). eauto.
  - intro H. apply Ht. eapply scan_tree_In; eauto.
Qed.

(** A lookup of a scalar id returns what [resolve] says and keeps the
    context well typed. *)
Lemma load_card_meta_ok cid c :
  wt_ctx c = true -> hashable cid = true ->
  exists c1,
    _load_card_meta cid c = (c1, Ok (resolve c cid)) /\
    wt_ctx c1 = true.
Proof.
  intros Hwt Hh.
  unfold _load_card_meta, bind, log, get_ctx, resolve; simpl.
  rewrite Hh; simpl.
  destruct (index_lookup cid (card_index c)) eqn:Ek; simpl.
  - eexists. split; [reflexivity | exact Hwt].
  - destruct (scan_tree cid (root c)) eqn:Es; simpl.
    + eexists. split; [reflexivity |].
      apply wt_ctx_parts. apply wt_ctx_parts in Hwt.
      destruct Hwt as [Hi Ht]. simpl. split; auto.
      intros k m. rewrite (index_set_absent _ _ _ Ek).
      intro Hin. apply in_app_or in Hin. destruct Hin as [Hin | Hin].
      * eauto.
      * destruct Hin as [Heq | []]. inversion Heq; subst.
        apply Ht. eapply scan_tree_In; eauto.
    + eexists. split; [reflexivity | exact Hwt].
Qed.

Lemma found_some (r : option obj) (meta : obj) :
  found r = Some meta -> r = Some meta.
Proof.
  destruct r as [[| kv o] |]; simpl; try discriminate.
  intro H. inversion H. reflexivity.
Qed.

Lemma isinstance_int_as_int v q :
  as_int v = Some q -> isinstance_int v = true /\ int_value v = q.
Proof. unfold isinstance_int, int_value. intros ->. auto. Qed.

Lemma isinstance_int_none v : as_int v = None -> isinstance_int v = false.
Proof. unfold isinstance_int. intros ->. reflexivity. Qed.


(** A well-typed entry in a well-typed context: the iteration returns. *)
Lemma deck_entry_ok path hid hf same i entry acc c :
  wt_ctx c = true -> wt_entry entry = true ->
  exists c1 acc1,
    deck_entry path hid hf same i entry acc c = (c1, Ok acc1) /\
    wt_ctx c1 = true.
Proof.
  intros Hwt Hwe. unfold deck_entry.
  destruct entry as [| b | z | x | s | l | e];
    try (eexists; eexists; split; [reflexivity | exact Hwt]).
  unfold wt_entry, well_shaped in Hwe.
  destruct (truthy (py_get e "card_id")) eqn:Tc; simpl negb.
  - destruct (as_int (py_get e "qty")) as [q |] eqn:Eq.
    + destruct (isinstance_int_as_int _ _ Eq) as (Hi & Hv).
      rewrite Hi, Hv. simpl. unfold bind at 1.
      destruct (load_card_meta_ok _ _ Hwt Hwe) as (c0 & Hl & Hwt0).
      rewrite Hl.
      destruct (found (resolve c (py_get e "card_id"))) as [meta |] eqn:Ef.
      * apply found_some in Ef.
        destruct (deck_entry_resolved_ok path hid hf same i
                    (py_get e "card_id") q meta (add_total acc q) c0
                    (wt_resolve _ _ _ Hwt Ef) Hwe) as (fs & acc1 & Hr).
        rewrite Hr. eexists; eexists; split; [reflexivity | exact Hwt0].
      * eexists; eexists; split; [reflexivity | exact Hwt0].
    + rewrite (isinstance_int_none _ Eq). simpl.
      eexists; eexists; split; [reflexivity | exact Hwt].
  - simpl. eexists; eexists; split; [reflexivity | exact Hwt].
Qed.

(** ** The deck validator leaves resolution as it is *)

#[export] Instance same_resolve_frame : FrameRel same_resolve.
Proof.
  split.
  - intros c x. reflexivity.
  - intros a b c Hab Hbc x. now rewrite Hbc, Hab.
Qed.

Lemma sr_add p l m : frame same_resolve (add p l m).
Proof. intros c x. reflexivity. Qed.

Lemma sr_load_card_meta card_id : frame same_resolve (_load_card_meta card_id).
Proof.
  intro c. destruct (_load_card_meta card_id c) as [c1 [r | e]] eqn:E.
  - apply load_card_meta_resolve in E. simpl. intro x. apply E.
  - unfold _load_card_meta, bind, log, get_ctx in E; simpl in E.
    destruct (hashable card_id); simpl in E.
    + destruct (index_lookup card_id (card_index c)); simpl in E;
        [discriminate |].
      destruct (scan_tree card_id (root c)); discriminate.
    + inversion E; subst. simpl. intro x. reflexivity.
Qed.

Ltac sr_tac :=
  repeat first
    [ apply sr_add
    | apply sr_load_card_meta
    | frame_step ].

Lemma sr_deck_entry path hid hf same i entry acc :
  frame same_resolve (deck_entry path hid hf same i entry acc).
Proof. unfold deck_entry, deck_entry_resolved. sr_tac. Qed.

Lemma sr_hero_check path hid df :
  frame same_resolve (hero_check path hid df).
Proof. unfold hero_check. sr_tac. Qed.


(** ** Deck files: the loop over [cards] *)



(** Well-typed entries in a well-typed context: the loop returns. *)
Lemma deck_loop_ok path hid hf same cards :
  forall i acc c,
    wt_ctx c = true -> forallb wt_entry cards = true ->
    exists c' acc',
      for_enum i cards acc (deck_entry path hid hf same) c = (c', Ok acc') /\
      wt_ctx c' = true.
Proof.
  induction cards as [| e cards IH]; intros i acc c Hwt Hwe; simpl.
  - eexists; eexists; split; [reflexivity | exact Hwt].
  - simpl in Hwe. apply andb_true_iff in Hwe. destruct Hwe as [He Hrest].
    destruct (deck_entry_ok path hid hf same i e acc c Hwt He)
      as (c1 & acc1 & Hr & Hwt1).
    unfold bind. rewrite Hr. now apply IH.
Qed.

(** ** Deck files: the hero check and the checks after the loop *)

Lemma hero_check_ok path hid df c :
  wt_ctx c = true -> hashable_or_falsy hid = true ->
  exists c1 hf,
    hero_check path hid df c = (c1, Ok hf) /\ wt_ctx c1 = true.
Proof.
  intros Hwt Hh. unfold hero_check.
  destruct (truthy hid) eqn:Th; cbn [negb]; cbv iota.
  - unfold hashable_or_falsy in Hh. rewrite Th, orb_false_r in Hh.
    destruct (load_card_meta_ok _ _ Hwt Hh) as (c0 & Hl & Hwt0).
    unfold bind at 1. rewrite Hl.
    destruct (found (resolve c hid)) as [meta |] eqn:Ef.
    + apply found_some in Ef.
      destruct (wt_card_fields _ (wt_resolve _ _ _ Hwt Ef))
        as (Hty & Hfa & _).
      destruct (norm_type_ok _ Hty) as (t & Ht).
      destruct (upper_field_ok _ "faction" Hfa) as (hfac & Hhf).
      unfold bind, lift, when, ret, add. rewrite Ht, Hhf.
      destruct (negb (t =? "hero"));
        destruct (negb (df =? "") && negb (hfac =? "")
                  && negb (df =? hfac))%bool;
        cbv beta iota; eexists; eexists; (split; [reflexivity | exact Hwt0]).
    + eexists; eexists; split; [reflexivity | exact Hwt0].
  - eexists; eexists; split; [reflexivity | exact Hwt].
Qed.

Lemma when_add_run (b : bool) p l m c :
  when b (add p l m) c
  = (add_findings c (if b then [mkFinding p l m] else []), Ok tt).
Proof. destruct b; simpl; [reflexivity | now rewrite add_findings_nil]. Qed.



(** ** Deck files: the whole run *)


Lemma size_findings_spec path cons acc f :
  In f (size_findings path cons acc) <->
  f = mkFinding path ERROR
        (MDeckSize (total_qty acc) (default 40%Z (c_min_cards cons))
           (default 60%Z (c_max_cards cons))) /\
  (total_qty acc < default 40 (c_min_cards cons) \/
   total_qty acc > default 60 (c_max_cards cons))%Z.
Proof.
  unfold size_findings. cbv zeta.
  destruct ((total_qty acc <? default 40 (c_min_cards cons))%Z
            || (total_qty acc >? default 60 (c_max_cards cons))%Z)%bool
    eqn:E; simpl.
  - apply orb_true_iff in E. rewrite Z.ltb_lt, Z.gtb_lt in E.
    split.
    + intros [<- | []]. split; [reflexivity | lia].
    + intros [-> _]. now left.
  - apply orb_false_iff in E. rewrite Z.ltb_ge, Z.gtb_ltb, Z.ltb_ge in E.
    split; [intros [] | intros [_ H]; lia].
Qed.

Lemma hero_copies_findings_spec path cons acc f :
  In f (hero_copies_findings path cons acc) <->
  f = mkFinding path ERROR (MHeroCopies (hero_seen acc)) /\
  default true (c_unique_hero cons) = true /\ hero_seen acc <> 1%Z.
Proof.
  unfold hero_copies_findings.
  destruct (default true (c_unique_hero cons)); simpl.
  - destruct (Z.eqb_spec (hero_seen acc) 1) as [E | E]; simpl.
    + split; [intros [] | intros (_ & _ & H); contradiction].
    + split.
      * intros [<- | []]. auto.
      * intros (-> & _). now left.
  - split; [intros [] | intros (_ & H & _); discriminate].
Qed.







(** ** The scenarios of the specification, run on the embedding *)

(** Scenario E: [count: 150] with the default bounds gets the range WARN
    and nothing else. *)
Example scenario_count_out_of_range :
  validate_collection_file ex_collection_path
    (JObj [("count", JInt 150)]) ex_ctx
  = (add_findings ex_ctx
       [mkFinding ex_collection_path WARN (MCountRange 0 150 0 99)], Ok tt).
Proof. reflexivity. Qed.

(** Scenarios B and C on [ex_deck]: the token entry is flagged, its 39
    copies exceed the copy limit, and the total of 40 is inside the
    bounds, so no deck-size finding is reported. *)
Example scenario_token_deck :
  validate_deck_file ex_deck_path (JObj ex_deck) ex_indexed
  = (mkContext [] ex_schema
       [mkFinding ex_deck_path ERROR (MToken 1 (JStr "C2"));
        mkFinding ex_deck_path ERROR (MTooManyCopies 3 (JStr "C2") 39)]
       (card_index ex_indexed)
       [EvLookup (JStr "C1"); EvLookup (JStr "C1"); EvLookup (JStr "C2")],
     Ok tt).
Proof. reflexivity. Qed.

(** * Further properties of the validation engine *)

(** ** Computations that only report *)

Lemma reports_ret {A} (P : Finding -> Prop) (a : A) : reports P (ret a).
Proof.
  intro c. exists [], a. rewrite add_findings_nil. split; [reflexivity | auto].
Qed.

Lemma reports_add (P : Finding -> Prop) p l m :
  P (mkFinding p l m) -> reports P (add p l m).
Proof.
  intros HP c. exists [mkFinding p l m], tt. split; [reflexivity | auto].
Qed.

Lemma reports_bind {A B} (P : Finding -> Prop) (m : M A) (k : A -> M B) :
  reports P m -> (forall a, reports P (k a)) -> reports P (bind m k).
Proof.
  intros Hm Hk c. destruct (Hm c) as (fs1 & a & Hr1 & F1).
  destruct (Hk a (add_findings c fs1)) as (fs2 & b & Hr2 & F2).
  exists (fs1 ++ fs2), b. unfold bind. rewrite Hr1, Hr2, add_findings_app.
  split; [reflexivity | now apply Forall_app].
Qed.

Lemma reports_get {B} (P : Finding -> Prop) (k : Context -> M B) :
  (forall c0, reports P (k c0)) -> reports P (bind get_ctx k).
Proof. intros Hk c. unfold bind, get_ctx. apply Hk. Qed.

Lemma reports_when (P : Finding -> Prop) (b : bool) (m : M unit) :
  (b = true -> reports P m) -> reports P (when b m).
Proof. destruct b; simpl; intro H; [auto | apply reports_ret]. Qed.

Lemma reports_for_each {A} (P : Finding -> Prop) (xs : list A)
  (body : A -> M unit) :
  (forall x, In x xs -> reports P (body x)) -> reports P (for_each xs body).
Proof.
  induction xs as [| x xs IH]; simpl; intro Hb.
  - apply reports_ret.
  - apply reports_bind; [apply Hb; now left |].
    intros _. apply IH. intros y Hy. apply Hb. now right.
Qed.

Lemma reports_for_enum {A St} (P : Finding -> Prop) (xs : list A)
  (body : nat -> A -> St -> M St) :
  (forall i x s, In x xs -> reports P (body i x s)) ->
  forall i s, reports P (for_enum i xs s body).
Proof.
  induction xs as [| x xs IH]; simpl; intros Hb i s.
  - apply reports_ret.
  - apply reports_bind; [apply Hb; now left |].
    intros s'. apply IH. intros j y t Hy. apply Hb. now right.
Qed.

Ltac reports_step :=
  match goal with
  | |- reports _ (bind get_ctx _) => apply reports_get; intros
  | |- reports _ (bind _ _) => apply reports_bind; [| intros]
  | |- reports _ (ret _) => apply reports_ret
  | |- reports _ (when _ _) => apply reports_when; intros
  | |- reports _ (for_each _ _) => apply reports_for_each; intros
  | |- reports _ (for_enum _ _ _ _) => apply reports_for_enum; intros
  | |- reports _ (add _ _ _) => apply reports_add
  | |- reports _ (if ?b then _ else _) => destruct b eqn:?
  | |- reports _ (match ?x with _ => _ end) => destruct x eqn:?
  | |- reports _ (let _ := _ in _) => cbv zeta
  | |- reports _ ((fun _ => _) _) => cbv beta
  end.

(** ** Collection files never raise *)

(** The collection validator returns normally on every document, whatever
    its shape; it appends findings about its own file and leaves the card
    index and the lookup trace untouched. *)
Theorem validate_collection_file_reports path data c :
  exists fs,
    validate_collection_file path data c = (add_findings c fs, Ok tt) /\
    Forall (on_path path) fs.
Proof.
  assert (H : reports (on_path path) (validate_collection_file path data)).
  { unfold validate_collection_file, validate_collection_item,
      collection_required, collection_count_check.
    repeat reports_step; reflexivity. }
  destruct (H c) as (fs & [] & Hrun & F). eauto.
Qed.

(** ** Card files: when the validator raises *)

Lemma card_id_check_outcome path id_re i o c :
  snd (card_id_check path id_re i o c)
  = if str_or_falsy (py_get o "id") then Ok tt else Raise TypeError.
Proof.
  unfold card_id_check, bind, when, lift, id_re_match, add, setdefault_card,
    ret.
  destruct (py_get o "id") as [| b | z | q | s | l | d]; simpl; auto.
  - destruct b; reflexivity.
  - destruct (Z.eqb z 0); reflexivity.
  - destruct (Qeq_bool q (0 # 1)); reflexivity.
  - destruct (s =? ""); simpl; auto. destruct (re_match id_re s); reflexivity.
  - destruct l; reflexivity.
  - destruct d; reflexivity.
Qed.

Lemma card_rarity_check_outcome rule path i o c :
  snd (card_rarity_check rule path i o c)
  = if (negb (rarities_checked rule) || str_or_falsy (py_get o "rarity"))%bool
    then Ok tt else Raise AttributeError.
Proof.
  unfold card_rarity_check, rarities_checked, bind, when, lift, str_method,
    add, ret.
  destruct (allowed_rarities rule) as [| r rs]; simpl; auto.
  destruct (py_get o "rarity") as [| b | z | q | s | l | d]; simpl; auto.
  - destruct b; reflexivity.
  - destruct (Z.eqb z 0); reflexivity.
  - destruct (Qeq_bool q (0 # 1)); reflexivity.
  - destruct (s =? ""); simpl; auto.
    destruct (negb _); reflexivity.
  - destruct l; reflexivity.
  - destruct d; reflexivity.
Qed.

Lemma card_type_check_outcome path i o c :
  snd (card_type_check path i o c)
  = if str_or_falsy (py_get_d o "type" (JStr "")) then Ok tt
    else Raise AttributeError.
Proof.
  unfold card_type_check, bind, when, lift, norm_type, str_method, py_or, add,
    ret.
  destruct (py_get_d o "type" (JStr "")) as [| b | z | q | s | l | d];
    simpl; auto.
  - destruct b; reflexivity.
  - destruct (Z.eqb z 0); reflexivity.
  - destruct (Qeq_bool q (0 # 1)); reflexivity.
  - destruct (s =? ""); simpl; auto;
      match goal with |- context [if ?b then _ else _] => destruct b end;
      reflexivity.
  - destruct l; reflexivity.
  - destruct d; reflexivity.
Qed.

(** What a sequence returns: the first exception, or the result of the
    continuation. *)
Lemma bind_outcome {A B} (m : M A) (k : A -> M B) c :
  snd (bind m k c)
  = match snd (m c) with
    | Ok a => snd (k a (fst (m c)))
    | Raise e => Raise e
    end.
Proof. unfold bind. destruct (m c) as [c1 [a | e]]; reflexivity. Qed.

Lemma validate_card_item_outcome rule path id_re i item c :
  snd (validate_card_item rule path id_re i item c) = Ok tt <->
  card_item_typed rule item = true.
Proof.
  unfold validate_card_item, card_item_typed.
  destruct item as [| b | z | q | s | l | o];
    try (split; intros; reflexivity).
  rewrite !bind_outcome.
  destruct (card_required_run rule path i o c) as (req & -> & _). simpl.
  rewrite card_id_check_outcome.
  destruct (str_or_falsy (py_get o "id")); simpl;
    [| split; discriminate].
  rewrite card_rarity_check_outcome.
  destruct (negb (rarities_checked rule)
            || str_or_falsy (py_get o "rarity"))%bool; simpl;
    [| split; discriminate].
  rewrite card_type_check_outcome.
  destruct (str_or_falsy (py_get_d o "type" (JStr ""))); simpl;
    split; auto; discriminate.
Qed.

Lemma for_enum_outcome {A} (typed : A -> bool)
  (body : nat -> A -> unit -> M unit) (xs : list A) :
  (forall i x c, snd (body i x tt c) = Ok tt <-> typed x = true) ->
  forall i c,
    snd (for_enum i xs tt body c) = Ok tt <-> forallb typed xs = true.
Proof.
  intro Hb. induction xs as [| x xs IH]; intros i c; simpl.
  - split; reflexivity.
  - rewrite bind_outcome, andb_true_iff, <- (Hb i x c).
    destruct (snd (body i x tt c)) as [[] | e].
    + rewrite IH. tauto.
    + split; [discriminate | intros [H _]; discriminate].
Qed.

(** The card validator returns normally exactly on the documents whose
    elements have the field types it assumes: it raises if and only if the
    document is not a load-error marker and some element is an object whose
    [id] or [type] is a truthy non-string, or whose [rarity] is one while
    the schema lists allowed rarities. *)
Theorem validate_card_file_returns_iff path data c :
  snd (validate_card_file path data c) = Ok tt <->
  card_file_typed (card_file (schema c)) data = true.
Proof.
  unfold validate_card_file, card_file_typed, bind, get_ctx. cbv zeta.
  destruct (is_load_error data); simpl.
  - split; reflexivity.
  - apply for_enum_outcome. intros i x c0.
    apply validate_card_item_outcome.
Qed.

(** ** Computations that touch nothing but the findings *)

Lemma rof_ret {A} (a : A) : runs_on_findings (ret a).
Proof. intro c. exists [], (Ok a). now rewrite add_findings_nil. Qed.

Lemma rof_lift {A} (r : outcome A) : runs_on_findings (lift r).
Proof. intro c. exists [], r. now rewrite add_findings_nil. Qed.

Lemma rof_add p l m : runs_on_findings (add p l m).
Proof. intro c. exists [mkFinding p l m], (Ok tt). reflexivity. Qed.

Lemma rof_bind {A B} (m : M A) (k : A -> M B) :
  runs_on_findings m -> (forall a, runs_on_findings (k a)) ->
  runs_on_findings (bind m k).
Proof.
  intros Hm Hk c. destruct (Hm c) as (fs1 & [a | e] & Hr1).
  - destruct (Hk a (add_findings c fs1)) as (fs2 & r & Hr2).
    exists (fs1 ++ fs2), r. unfold bind.
    now rewrite Hr1, Hr2, add_findings_app.
  - exists fs1, (Raise e). unfold bind. now rewrite Hr1.
Qed.

Lemma rof_when (b : bool) (m : M unit) :
  runs_on_findings m -> runs_on_findings (when b m).
Proof. destruct b; simpl; intro H; [auto | apply rof_ret]. Qed.

Lemma rof_for_each {A} (xs : list A) (body : A -> M unit) :
  (forall x, runs_on_findings (body x)) -> runs_on_findings (for_each xs body).
Proof.
  intro Hb. induction xs as [| x xs IH]; simpl.
  - apply rof_ret.
  - apply rof_bind; auto.
Qed.

Ltac rof_tac :=
  repeat match goal with
         | |- runs_on_findings (bind _ _) => apply rof_bind; [| intros]
         | |- runs_on_findings (ret _) => apply rof_ret
         | |- runs_on_findings (lift _) => apply rof_lift
         | |- runs_on_findings (when _ _) => apply rof_when
         | |- runs_on_findings (for_each _ _) => apply rof_for_each; intros
         | |- runs_on_findings (add _ _ _) => apply rof_add
         | |- runs_on_findings (let _ := _ in _) => cbv zeta
         end.

Lemma rof_index {A} (m : M A) c :
  runs_on_findings m -> card_index (fst (m c)) = card_index c.
Proof. intro H. destruct (H c) as (fs & r & ->). reflexivity. Qed.

Lemma card_rest_rof rule path i o :
  runs_on_findings
    (card_rarity_check rule path i o ;;; card_type_check path i o).
Proof. unfold card_rarity_check, card_type_check. rof_tac. Qed.

(** ** Card files: what gets indexed *)

(** The index after the id block: a non-empty string id is registered with
    [setdefault]; anything else leaves the index alone. *)
Lemma card_id_check_index path id_re i o c :
  card_index (fst (card_id_check path id_re i o c))
  = match py_get o "id" with
    | JStr s =>
        if (s =? "") then card_index c
        else index_setdefault (JStr s) o (card_index c)
    | _ => card_index c
    end.
Proof.
  unfold card_id_check, bind, when, lift, id_re_match, add, setdefault_card,
    ret.
  destruct (py_get o "id") as [| b | z | q | s | l | d]; simpl; auto.
  - destruct b; reflexivity.
  - destruct (Z.eqb z 0); reflexivity.
  - destruct (Qeq_bool q (0 # 1)); reflexivity.
  - destruct (s =? ""); simpl; auto. destruct (re_match id_re s); reflexivity.
  - destruct l; reflexivity.
  - destruct d; reflexivity.
Qed.

(** One element of a card file, whether or not the validator raises on it:
    the only change to the index is the [setdefault] of the id block. *)
Lemma validate_card_item_index rule path id_re i item c :
  card_index (fst (validate_card_item rule path id_re i item c))
  = match item with
    | JObj o =>
        match py_get o "id" with
        | JStr s =>
            if (s =? "") then card_index c
            else index_setdefault (JStr s) o (card_index c)
        | _ => card_index c
        end
    | _ => card_index c
    end.
Proof.
  unfold validate_card_item.
  destruct item as [| b | z | q | s | l | o]; try reflexivity.
  unfold bind at 1.
  destruct (card_required_run rule path i o c) as (req & Hreq & _).
  rewrite Hreq.
  pose proof (card_id_check_index path id_re i o (add_findings c req)) as Hid.
  etransitivity; [| exact Hid]. clear Hid.
  unfold bind at 1.
  destruct (card_id_check path id_re i o (add_findings c req))
    as [c1 [[] | e]]; [| reflexivity].
  simpl. apply (rof_index _ c1 (card_rest_rof rule path i o)).
Qed.

Lemma index_lookup_setdefault (k : json) (t : string) (o : obj)
  (idx : list (json * obj)) :
  index_lookup k (index_setdefault (JStr t) o idx)
  = match index_lookup k idx with
    | Some m => Some m
    | None => if py_eq (JStr t) k then Some o else None
    end.
Proof.
  unfold index_setdefault.
  destruct (index_lookup (JStr t) idx) eqn:Et.
  - destruct (index_lookup k idx) eqn:Ek; auto.
    destruct (py_eq (JStr t) k) eqn:E; auto.
    destruct k; simpl in E; try discriminate.
    apply String.eqb_eq in E. subst. congruence.
  - rewrite (index_set_absent _ _ _ Et), index_lookup_app.
    destruct (index_lookup k idx); auto.
Qed.

Lemma find_in_list_cons (k : json) (item : json) (items : list json) :
  find_in_list k (item :: items)
  = match find_in_list k [item] with
    | Some o => Some o
    | None => find_in_list k items
    end.
Proof.
  destruct item; simpl; auto.
  destruct (py_eq (py_get o "id") k); auto.
Qed.

(** One element, looked up under a non-empty string id afterwards. *)
Lemma validate_card_item_lookup rule path id_re i item c s :
  s <> "" ->
  index_lookup (JStr s)
    (card_index (fst (validate_card_item rule path id_re i item c)))
  = match index_lookup (JStr s) (card_index c) with
    | Some m => Some m
    | None => find_in_list (JStr s) [item]
    end.
Proof.
  intro Hs. rewrite validate_card_item_index.
  destruct item as [| b | z | q | t | l | o]; simpl;
    try (destruct (index_lookup (JStr s) (card_index c)); reflexivity).
  destruct (py_get o "id") as [| b | z | q | t | l | d]; simpl;
    try (destruct (index_lookup (JStr s) (card_index c)); reflexivity).
  destruct (String.eqb_spec t "") as [-> | Ht].
  - destruct (String.eqb_spec "" s) as [<- | _]; [congruence |].
    destruct (index_lookup (JStr s) (card_index c)); reflexivity.
  - rewrite index_lookup_setdefault. simpl.
    destruct (index_lookup (JStr s) (card_index c)); auto.
Qed.

(** One element, looked up under any other key afterwards: nothing new. *)
Lemma validate_card_item_lookup_other rule path id_re i item c k :
  match k with JStr s => s = "" | _ => True end ->
  index_lookup k
    (card_index (fst (validate_card_item rule path id_re i item c)))
  = index_lookup k (card_index c).
Proof.
  intro Hk. rewrite validate_card_item_index.
  destruct item as [| b | z | q | t | l | o]; auto.
  destruct (py_get o "id") as [| b | z | q | t | l | d]; auto.
  destruct (String.eqb_spec t "") as [-> | Ht]; auto.
  rewrite index_lookup_setdefault.
  destruct (index_lookup k (card_index c)); auto.
  destruct k; simpl; auto. subst.
  destruct (String.eqb_spec t "") as [-> | _]; [congruence | reflexivity].
Qed.

Lemma card_items_lookup rule path id_re s (items : list json) :
  s <> "" ->
  forall i c c',
    for_enum i items tt
      (fun i item _ => validate_card_item rule path id_re i item) c
    = (c', Ok tt) ->
    index_lookup (JStr s) (card_index c')
    = match index_lookup (JStr s) (card_index c) with
      | Some m => Some m
      | None => find_in_list (JStr s) items
      end.
Proof.
  intro Hs. induction items as [| item items IH]; intros i c c' Hrun.
  - simpl in Hrun. inversion Hrun; subst.
    destruct (index_lookup (JStr s) (card_index c')); reflexivity.
  - simpl for_enum in Hrun. unfold bind in Hrun.
    pose proof (validate_card_item_lookup rule path id_re i item c s Hs)
      as Hitem.
    destruct (validate_card_item rule path id_re i item c)
      as [c1 [[] | e]]; [| discriminate].
    simpl in Hitem. rewrite (IH _ _ _ Hrun), Hitem, find_in_list_cons.
    destruct (index_lookup (JStr s) (card_index c)); auto.
Qed.

Lemma card_items_lookup_other rule path id_re k (items : list json) :
  match k with JStr s => s = "" | _ => True end ->
  forall i c,
    index_lookup k
      (card_index
         (fst (for_enum i items tt
                 (fun i item _ => validate_card_item rule path id_re i item)
                 c)))
    = index_lookup k (card_index c).
Proof.
  intro Hk. induction items as [| item items IH]; intros i c; auto.
  simpl for_enum. unfold bind.
  pose proof (validate_card_item_lookup_other rule path id_re i item c k Hk)
    as Hitem.
  destruct (validate_card_item rule path id_re i item c)
    as [c1 [[] | e]]; simpl in *; auto.
  now rewrite IH.
Qed.

(** ** Card files: the index after a file *)

Lemma card_file_lookup path data c c' s :
  validate_card_file path data c = (c', Ok tt) ->
  s <> "" ->
  index_lookup (JStr s) (card_index c')
  = match index_lookup (JStr s) (card_index c) with
    | Some m => Some m
    | None =>
        if is_load_error data then None
        else find_in_list (JStr s) (items_of data)
    end.
Proof.
  unfold validate_card_file, bind, get_ctx. cbv zeta beta iota.
  intros Hrun Hs. destruct (is_load_error data).
  - unfold add in Hrun. inversion Hrun; subst. simpl.
    destruct (index_lookup (JStr s) (card_index c)); reflexivity.
  - now apply (card_items_lookup _ _ _ s _ Hs _ _ _ Hrun).
Qed.

Lemma card_file_lookup_other path data c k :
  match k with JStr s => s = "" | _ => True end ->
  index_lookup k (card_index (fst (validate_card_file path data c)))
  = index_lookup k (card_index c).
Proof.
  intro Hk. unfold validate_card_file, bind, get_ctx. cbv zeta beta iota.
  destruct (is_load_error data); [reflexivity |].
  now apply card_items_lookup_other.
Qed.

(** After the card validator has returned from a file, the index answers a
    non-empty string id with the record it had before or, if the id was
    unbound, with the first object of the file that carries this id (a file
    that could not be loaded binds nothing); under every other key, the
    empty string included, the index answers as before. *)
Theorem validate_card_file_index path data c c' :
  validate_card_file path data c = (c', Ok tt) ->
  (forall s, s <> "" ->
     index_lookup (JStr s) (card_index c')
     = match index_lookup (JStr s) (card_index c) with
       | Some m => Some m
       | None =>
           if is_load_error data then None
           else find_in_list (JStr s) (items_of data)
       end) /\
  (forall k, match k with JStr s => s = "" | _ => True end ->
     index_lookup k (card_index c') = index_lookup k (card_index c)).
Proof.
  intro Hrun. split.
  - intros s Hs. now apply (card_file_lookup path).
  - intros k Hk.
    pose proof (card_file_lookup_other path data c k Hk) as H.
    now rewrite Hrun in H.
Qed.

Lemma validate_card_file_index_witness :
  index_lookup (JStr "C2")
    (card_index
       (fst (validate_card_file ex_card_path
               (JList [JObj ex_hero; JObj ex_token]) ex_ctx)))
  = Some ex_token.
Proof.
  apply (proj1 (validate_card_file_index ex_card_path
                  (JList [JObj ex_hero; JObj ex_token]) ex_ctx _
                  eq_refl) "C2").
  discriminate.
Defined.

(** ** The card pass *)

Lemma scan_tree_cons (k : json) (p : Path) (data : json)
  (rest : list (Path * json)) :
  scan_tree k ((p, data) :: rest)
  = if looks_like_card_file p
    then match find_in_list k (items_of data) with
         | Some o => Some o
         | None => scan_tree k rest
         end
    else scan_tree k rest.
Proof.
  simpl. destruct (looks_like_card_file p); simpl; auto.
  destruct data; simpl; auto.
  destruct (py_eq (py_get o "id") k); auto.
Qed.

(** A load-error marker holds no card. *)
Lemma load_error_no_card (o : obj) (s : string) :
  (negb (py_in "__load_error__" o) || negb (py_in "id" o))%bool = true ->
  is_load_error (JObj o) = true ->
  find_in_list (JStr s) (items_of (JObj o)) = None.
Proof.
  simpl. intros Hplain Herr. rewrite Herr in Hplain. simpl in Hplain.
  unfold py_in in Hplain. unfold py_get, py_get_d.
  destruct (dict_get o "id"); [discriminate | reflexivity].
Qed.

Lemma scan_cards_loop (s : string) (files : list (Path * json)) :
  s <> "" ->
  plain_load_errors files = true ->
  forall c c',
    for_each files (fun f =>
      when (looks_like_card_file (fst f))
        (validate_card_file (fst f) (snd f))) c = (c', Ok tt) ->
    index_lookup (JStr s) (card_index c')
    = match index_lookup (JStr s) (card_index c) with
      | Some m => Some m
      | None => scan_tree (JStr s) files
      end.
Proof.
  intros Hs. induction files as [| [p data] files IH]; intros Hplain c c' Hrun.
  - simpl in Hrun. inversion Hrun; subst.
    destruct (index_lookup (JStr s) (card_index c')); reflexivity.
  - simpl in Hplain. apply andb_true_iff in Hplain.
    destruct Hplain as [Hp Hplain].
    simpl for_each in Hrun. unfold bind in Hrun. simpl fst in Hrun.
    simpl snd in Hrun. rewrite scan_tree_cons.
    destruct (looks_like_card_file p); simpl when in Hrun.
    + destruct (validate_card_file p data c) as [c1 [[] | e]] eqn:E;
        [| discriminate].
      rewrite (IH Hplain _ _ Hrun), (card_file_lookup _ _ _ _ s E Hs).
      destruct (index_lookup (JStr s) (card_index c)); auto.
      destruct (is_load_error data) eqn:Herr; auto.
      destruct data; try discriminate.
      now rewrite (load_error_no_card o s Hp Herr).
    + unfold ret in Hrun. now apply IH.
Qed.

Lemma scan_cards_loop_other (k : json) (files : list (Path * json)) :
  match k with JStr s => s = "" | _ => True end ->
  forall c,
    index_lookup k
      (card_index
         (fst (for_each files (fun f =>
                 when (looks_like_card_file (fst f))
                   (validate_card_file (fst f) (snd f))) c)))
    = index_lookup k (card_index c).
Proof.
  intro Hk. induction files as [| [p data] files IH]; intro c; auto.
  simpl for_each. unfold bind. simpl fst. simpl snd.
  destruct (looks_like_card_file p); simpl when.
  - pose proof (card_file_lookup_other p data c k Hk) as H1.
    destruct (validate_card_file p data c) as [c1 [[] | e]]; simpl in *; auto.
    now rewrite IH.
  - unfold ret. apply IH.
Qed.

Lemma scan_cards_grows : frame (extends any_finding any_event) scan_cards.
Proof. unfold scan_cards. frame_tac. apply validate_card_file_grows. Qed.

(** The index a returning card pass leaves behind agrees with the lazy
    search: every non-empty string id is answered by the index with exactly
    the record a lookup would have resolved it to before the pass, so no id
    resolves differently after the pass than before it.  (The files that
    could not be loaded are assumed to be the plain markers that
    [load_json] makes up.) *)
Theorem scan_cards_indexes_what_resolves c c' :
  scan_cards c = (c', Ok tt) ->
  plain_load_errors (root c) = true ->
  (forall s, s <> "" ->
     index_lookup (JStr s) (card_index c') = resolve c (JStr s)) /\
  (forall k, resolve c' k = resolve c k).
Proof.
  intros Hrun Hplain.
  assert (Hroot : root c' = root c).
  { pose proof (scan_cards_grows c) as Hg. rewrite Hrun in Hg. apply Hg. }
  assert (Hstr : forall s, s <> "" ->
            index_lookup (JStr s) (card_index c') = resolve c (JStr s)).
  { intros s Hs. unfold scan_cards, bind, get_ctx in Hrun. simpl in Hrun.
    apply (scan_cards_loop s _ Hs Hplain _ _ Hrun). }
  split; [exact Hstr |].
  intro k. unfold resolve at 1. rewrite Hroot.
  assert (Hother : match k with JStr s => s = "" | _ => True end ->
            index_lookup k (card_index c') = index_lookup k (card_index c)).
  { intro Hk. pose proof (scan_cards_loop_other k (root c) Hk c) as H.
    unfold scan_cards, bind, get_ctx in Hrun. simpl in Hrun.
    now rewrite Hrun in H. }
  destruct k as [| b | z | q | s | l | o];
    try (rewrite Hother by exact I; reflexivity).
  destruct (String.eqb_spec s "") as [-> | Hs].
  - rewrite Hother by reflexivity. reflexivity.
  - rewrite (Hstr s Hs). unfold resolve.
    destruct (index_lookup (JStr s) (card_index c)); auto.
    destruct (scan_tree (JStr s) (root c)); auto.
Qed.

Lemma scan_cards_indexes_what_resolves_witness :
  index_lookup (JStr "C2") (card_index (fst (scan_cards ex_tree_ctx)))
  = resolve ex_tree_ctx (JStr "C2").
Proof.
  apply (proj1 (scan_cards_indexes_what_resolves ex_tree_ctx _
                  eq_refl eq_refl) "C2").
  discriminate.
Defined.

(** ** How the validators reach the context *)

(** The ids that are looked up have passed a truthiness test. *)
Ltac truthy_id :=
  unfold truthy_event; simpl event_id;
  match goal with
  | H : negb (truthy ?x) = false |- truthy ?x = true =>
      now apply negb_false_iff in H
  | H : (negb (truthy ?x) || _)%bool = false |- truthy ?x = true =>
      apply orb_false_iff in H; destruct H as [H _];
      now apply negb_false_iff in H
  end.

(** The deck validator changes the context only by reporting findings and
    by looking up truthy ids: a relation kept by these two is kept by
    it. *)
Section DeckFrames.
Context (R : Context -> Context -> Prop) `{FrameRel R}.
Hypothesis R_add : forall p l m, frame R (add p l m).
Hypothesis R_lookup :
  forall card_id, truthy card_id = true -> frame R (_load_card_meta card_id).

Lemma validate_deck_file_frame path data :
  frame R (validate_deck_file path data).
Proof.
  unfold validate_deck_file, deck_checks, hero_check, deck_entry,
    deck_entry_resolved, deck_totals.
  repeat first [ apply R_add | apply R_lookup; truthy_id | frame_step ].
Qed.

Lemma validate_collection_file_frame path data :
  frame R (validate_collection_file path data).
Proof.
  unfold validate_collection_file, validate_collection_item,
    collection_required, collection_count_check.
  repeat first [ apply R_add | frame_step ].
Qed.
End DeckFrames.

(** ** The index files every record under its own id *)

#[export] Instance keeps_index_ok_frame : FrameRel keeps_index_ok.
Proof.
  split.
  - intros c Hc. exact Hc.
  - intros a b c Hab Hbc Ha. auto.
Qed.

Lemma keeps_index_ok_intro c c' :
  (forall k m, In (k, m) (card_index c') ->
     In (k, m) (card_index c) \/ py_eq (py_get m "id") k = true) ->
  keeps_index_ok c c'.
Proof.
  intros Hnew Hc k m Hin. destruct (Hnew k m Hin) as [Hold | Heq]; auto.
Qed.

Lemma kio_add p l m : frame keeps_index_ok (add p l m).
Proof. intros c Hc. exact Hc. Qed.

Lemma find_in_list_id (k : json) (l : list json) (o : obj) :
  find_in_list k l = Some o -> py_eq (py_get o "id") k = true.
Proof.
  induction l as [| v l IH]; simpl; [discriminate |].
  destruct v; auto.
  destruct (py_eq (py_get o0 "id") k) eqn:E; auto.
  intro H. inversion H; subst. exact E.
Qed.

(** What the tree search returns carries the id that was searched. *)
Lemma scan_tree_id (k : json) (files : list (Path * json)) (o : obj) :
  scan_tree k files = Some o -> py_eq (py_get o "id") k = true.
Proof.
  induction files as [| [p data] files IH]; [discriminate |].
  rewrite scan_tree_cons. destruct (looks_like_card_file p); auto.
  destruct (find_in_list k (items_of data)) eqn:E; auto.
  intro H. inversion H; subst. now apply find_in_list_id with (items_of data).
Qed.

Lemma kio_load_card_meta card_id : frame keeps_index_ok (_load_card_meta card_id).
Proof.
  intro c. apply keeps_index_ok_intro.
  unfold _load_card_meta, bind, log, get_ctx; simpl.
  destruct (hashable card_id); simpl; [| intros k m Hin; now left].
  destruct (index_lookup card_id (card_index c)) eqn:Ek; simpl;
    [intros k m Hin; now left |].
  destruct (scan_tree card_id (root c)) eqn:Es; simpl;
    [| intros k m Hin; now left].
  intros k m. rewrite (index_set_absent _ _ _ Ek).
  intro Hin. apply in_app_or in Hin. destruct Hin as [Hin | [Heq | []]]; auto.
  inversion Heq; subst. right. now apply scan_tree_id with (root c).
Qed.

Lemma kio_card_item rule path id_re i item :
  frame keeps_index_ok (validate_card_item rule path id_re i item).
Proof.
  intro c. apply keeps_index_ok_intro. rewrite validate_card_item_index.
  destruct item as [| b | z | q | t | l | o];
    try (intros k m Hin; now left).
  destruct (py_get o "id") as [| b | z | q | t | l | d] eqn:Eid;
    try (intros k m Hin; now left).
  destruct (t =? ""); [intros k m Hin; now left |].
  intros k m. unfold index_setdefault.
  match goal with
  | |- context [match ?x with _ => _ end] => destruct x eqn:Ek
  end; [intro Hin; now left |].
  rewrite (index_set_absent _ _ _ Ek).
  intro Hin. apply in_app_or in Hin. destruct Hin as [Hin | [Heq | []]]; auto.
  inversion Heq; subst. right. rewrite Eid. simpl. apply String.eqb_refl.
Qed.

Lemma kio_card_file path data :
  frame keeps_index_ok (validate_card_file path data).
Proof.
  unfold validate_card_file.
  repeat first [ apply kio_add | apply kio_card_item | frame_step ].
Qed.

Lemma kio_index_step c c' : index_step c c' -> keeps_index_ok c c'.
Proof.
  intros [path data | path data | card_id | path data].
  - apply kio_card_file.
  - apply validate_collection_file_frame;
      [typeclasses eauto | apply kio_add].
  - apply kio_load_card_meta.
  - apply validate_deck_file_frame;
      [typeclasses eauto | apply kio_add
      | intros; apply kio_load_card_meta].
Qed.

(** Every record of the index carries the id it is filed under: if this
    holds of a context (as it does of a new one, whose index is empty), it
    holds after any sequence of card-file, collection-file and deck-file
    validations and lookups, also after one of them has raised. *)
Theorem index_records_carry_their_id c c' :
  index_ok c -> index_steps c c' -> index_ok c'.
Proof.
  intros Hc Hsteps. induction Hsteps as [| c1 c2 _ IH Hstep]; auto.
  now apply (kio_index_step c1 c2 Hstep).
Qed.

Lemma index_records_carry_their_id_witness :
  index_ok (fst (validate_card_file ex_card_path
                   (JList [JObj ex_hero; JObj ex_token]) ex_ctx)).
Proof.
  apply (index_records_carry_their_id ex_ctx).
  - intros k m [].
  - eapply steps_next; [apply steps_done | apply step_card_file].
Defined.

(** ** Deck files: the counters behind the caps *)

Lemma for_each_when_add_exact {A} (xs : list A) (cond : A -> bool)
  (msg : A -> Message) (p : Path) (l : Level) (c : Context) :
  for_each xs (fun x => when (cond x) (add p l (msg x))) c
  = (add_findings c (map (fun x => mkFinding p l (msg x)) (filter cond xs)),
     Ok tt).
Proof.
  revert c. induction xs as [| x xs IH]; intro c; simpl.
  - now rewrite add_findings_nil.
  - unfold bind. destruct (cond x); simpl.
    + etransitivity;
        [exact (IH (add_findings c [mkFinding p l (msg x)])) |].
      now rewrite add_findings_app.
    + apply IH.
Qed.

(** The checks after the loop, finding by finding. *)
Lemma deck_totals_exact path cons acc c :
  deck_totals path cons acc c
  = (add_findings c
       (size_findings path cons acc ++ copies_findings path cons acc
        ++ rare_findings path cons acc ++ unique_findings path cons acc
        ++ hero_copies_findings path cons acc), Ok tt).
Proof.
  unfold deck_totals, size_findings, copies_findings, rare_findings,
    unique_findings, hero_copies_findings. cbv zeta.
  unfold bind at 1. rewrite when_add_run.
  unfold bind at 1.
  rewrite (for_each_when_add_exact (name_counts acc)
             (fun nc => (snd nc >? default 3 (c_max_same_card cons))%Z)
             (fun nc => MTooManyCopies (default 3%Z (c_max_same_card cons))
                          (fst nc) (snd nc))).
  unfold bind at 1. rewrite when_add_run.
  unfold bind at 1. rewrite when_add_run.
  rewrite when_add_run, !add_findings_app.
  reflexivity.
Qed.

Lemma deck_entry_resolved_counters path hid hf same i cid q meta acc c c'
  acc' :
  deck_entry_resolved path hid hf same i cid q meta acc c = (c', Ok acc') ->
  rare_count acc'
  = (if is_rare meta then rare_count acc + q else rare_count acc)%Z /\
  unique_count acc'
  = (if is_unique meta then unique_count acc + q else unique_count acc)%Z /\
  name_counts acc'
  = index_set (display_name meta cid)
      (default 0 (index_lookup (display_name meta cid) (name_counts acc))
       + q)%Z
      (name_counts acc).
Proof.
  intro H. unfold deck_entry_resolved in H. unfold is_rare, is_unique.
  run_inv H; simpl; auto.
Qed.

Lemma deck_entry_counters path hid hf same i entry acc c c1 acc1 :
  deck_entry path hid hf same i entry acc c = (c1, Ok acc1) ->
  match well_shaped entry with
  | None => acc1 = acc
  | Some (cid, q) =>
      match found (resolve c cid) with
      | None =>
          rare_count acc1 = rare_count acc /\
          unique_count acc1 = unique_count acc /\
          name_counts acc1 = name_counts acc
      | Some meta =>
          rare_count acc1
          = (if is_rare meta then rare_count acc + q
             else rare_count acc)%Z /\
          unique_count acc1
          = (if is_unique meta then unique_count acc + q
             else unique_count acc)%Z /\
          name_counts acc1
          = index_set (display_name meta cid)
              (default 0
                 (index_lookup (display_name meta cid) (name_counts acc))
               + q)%Z
              (name_counts acc)
      end
  end.
Proof.
  intro H. unfold deck_entry in H.
  destruct entry as [| b | z | x | s | l | e]; try (run_inv H; reflexivity).
  unfold well_shaped.
  destruct (truthy (py_get e "card_id")) eqn:Tc; simpl negb in H.
  - destruct (as_int (py_get e "qty")) as [q |] eqn:Eq.
    + destruct (isinstance_int_as_int _ _ Eq) as (Hi & Hv).
      rewrite Hi, Hv in H. simpl in H. unfold bind at 1 in H.
      destruct (_load_card_meta (py_get e "card_id") c)
        as [c0 [r | ex]] eqn:El; [| discriminate].
      apply load_card_meta_resolve in El.
      destruct El as (-> & Hh & Hf & Hsr).
      destruct (found (resolve c (py_get e "card_id"))) as [meta |] eqn:Ef.
      * apply deck_entry_resolved_counters in H. exact H.
      * run_inv H. simpl. auto.
    + rewrite (isinstance_int_none _ Eq) in H. simpl in H.
      run_inv H. reflexivity.
  - simpl in H. run_inv H. reflexivity.
Qed.

Lemma counted_copies_ext counts c c' cards :
  same_resolve c c' ->
  counted_copies counts c' cards = counted_copies counts c cards.
Proof.
  intro Hsr. induction cards as [| entry cards IH]; simpl; auto.
  destruct (well_shaped entry) as [[cid q] |]; auto.
  rewrite (Hsr cid), IH. reflexivity.
Qed.

(** The rarity counters a returning loop ends with. *)
Lemma deck_loop_counters path hid hf same cards :
  forall i acc c c' acc',
    for_enum i cards acc (deck_entry path hid hf same) c = (c', Ok acc') ->
    rare_count acc' = (rare_count acc + counted_copies is_rare c cards)%Z /\
    unique_count acc'
    = (unique_count acc + counted_copies is_unique c cards)%Z.
Proof.
  induction cards as [| entry cards IH]; intros i acc c c' acc' H; simpl in H.
  - inversion H; subst. simpl. lia.
  - unfold bind in H.
    destruct (deck_entry path hid hf same i entry acc c)
      as [c1 [acc1 |]] eqn:E; [| discriminate].
    pose proof (sr_deck_entry path hid hf same i entry acc c) as Hsr.
    rewrite E in Hsr. simpl in Hsr.
    apply deck_entry_counters in E.
    apply IH in H. destruct H as (Hr & Hu).
    rewrite (counted_copies_ext _ _ _ _ Hsr) in Hr.
    rewrite (counted_copies_ext _ _ _ _ Hsr) in Hu.
    simpl. destruct (well_shaped entry) as [[cid q] |].
    + destruct (found (resolve c cid)) as [meta |].
      * destruct E as (Hr1 & Hu1 & _). rewrite Hr, Hu, Hr1, Hu1.
        destruct (is_rare meta), (is_unique meta); lia.
      * destruct E as (Hr1 & Hu1 & _). rewrite Hr, Hu, Hr1, Hu1. lia.
    + subst acc1. auto.
Qed.

(** What the hero check returns. *)
Lemma hero_check_value path hid df c c1 hf :
  hero_check path hid df c = (c1, Ok hf) -> hf = hero_faction c hid.
Proof.
  unfold hero_check, hero_faction.
  destruct (truthy hid); cbn [negb]; cbv iota.
  - unfold bind at 1.
    destruct (_load_card_meta hid c) as [c0 [r | ex]] eqn:El;
      [| discriminate].
    apply load_card_meta_resolve in El. destruct El as (-> & _).
    destruct (found (resolve c hid)) as [meta |].
    + intro H. run_inv H; reflexivity.
    + intro H. run_inv H. reflexivity.
  - intro H. run_inv H. reflexivity.
Qed.

(** A well-typed deck in a well-typed context, stage by stage: the report
    of the missing required fields, the hero check, the loop and, finding
    by finding, the checks after the loop. *)
Lemma deck_file_stages_run path d cards c s :
  py_in "__load_error__" d = false ->
  py_get d "cards" = JList cards ->
  wt_deck d cards = true -> wt_ctx c = true ->
  upper_field d "faction" = Ok s ->
  let cons := constraints (deck_file (schema c)) in
  let hid := py_get d "hero_id" in
  exists req c1 hf c2 acc lfs,
    Forall (fun f => exists name,
              f = mkFinding path ERROR (MDeckMissingField name)) req /\
    hero_check path hid s (add_findings c req) = (c1, Ok hf) /\
    for_enum O cards acc0
      (deck_entry path hid hf (default true (c_same_faction_as_hero cons)))
      c1 = (c2, Ok acc) /\
    validate_deck_file path (JObj d) c
    = (add_findings c2
         (size_findings path cons acc ++ copies_findings path cons acc
          ++ rare_findings path cons acc ++ unique_findings path cons acc
          ++ hero_copies_findings path cons acc), Ok tt) /\
    findings c2 = findings c1 ++ lfs /\
    Forall (fun f => entry_msg (f_message f)) lfs.
Proof.
  intros Hload Hcards Hwd Hwt Hs cons hid.
  unfold wt_deck in Hwd.
  apply andb_true_iff in Hwd. destruct Hwd as [Hwd Hentries].
  apply andb_true_iff in Hwd. destruct Hwd as [Hfac Hhero].
  destruct (deck_file_stages path d cards c s Hload Hs
              (py_or_list _ _ Hcards)) as (req & Freq & Hrun).
  destruct (hero_check_ok path hid s (add_findings c req) Hwt Hhero)
    as (c1 & hf & Hh & Hwt1).
  destruct (deck_loop_ok path hid hf
              (default true (c_same_faction_as_hero cons)) cards
              O acc0 c1 Hwt1 Hentries) as (c2 & acc & Hl & _).
  pose proof (frame_for_enum
                (extends (fun f => entry_msg (f_message f)) any_event) cards
                (deck_entry path hid hf
                   (default true (c_same_faction_as_hero cons)))
                (fun j x a _ =>
                   deck_entry_frame (fun f => entry_msg (f_message f))
                     any_event path hid hf _ j x a (fun _ _ Hm => Hm)
                     (fun _ _ => conj I I))
                O acc0 c1) as Hlf.
  rewrite Hl in Hlf. simpl in Hlf.
  destruct Hlf as (_ & _ & (lfs & Hlfs & Flfs) & _).
  exists req, c1, hf, c2, acc, lfs.
  split; [exact Freq |]. split; [exact Hh |]. split; [exact Hl |].
  split; [| split; [exact Hlfs | exact Flfs]].
  rewrite Hrun. unfold deck_checks. fold cons. fold hid.
  unfold bind at 1. rewrite Hh. unfold bind at 1. rewrite Hl.
  apply deck_totals_exact.
Qed.

Lemma deck_file_stages_exact path d cards c :
  py_in "__load_error__" d = false ->
  py_get d "cards" = JList cards ->
  wt_deck d cards = true -> wt_ctx c = true ->
  let cons := constraints (deck_file (schema c)) in
  let hid := py_get d "hero_id" in
  exists c1 hf c2 acc before lfs,
    hf = hero_faction c hid /\
    for_enum O cards acc0
      (deck_entry path hid hf (default true (c_same_faction_as_hero cons)))
      c1 = (c2, Ok acc) /\
    same_resolve c c1 /\
    validate_deck_file path (JObj d) c
    = (add_findings c2
         (size_findings path cons acc ++ copies_findings path cons acc
          ++ rare_findings path cons acc ++ unique_findings path cons acc
          ++ hero_copies_findings path cons acc), Ok tt) /\
    findings c1 = findings c ++ before /\
    Forall (fun f => msg_index (f_message f) = None /\
                     pre_msg (f_message f)) before /\
    findings c2 = findings c1 ++ lfs /\
    Forall (fun f => entry_msg (f_message f)) lfs.
Proof.
  intros Hload Hcards Hwd Hwt cons hid. subst hid.
  assert (Hfac : str_or_falsy (py_get d "faction") = true).
  { unfold wt_deck in Hwd. apply andb_true_iff in Hwd.
    destruct Hwd as [Hwd _]. apply andb_true_iff in Hwd. apply Hwd. }
  destruct (upper_field_ok d "faction" Hfac) as (s & Hs).
  destruct (deck_file_stages_run path d cards c s Hload Hcards Hwd Hwt Hs)
    as (req & c1 & hf & c2 & acc & lfs & Freq & Hh & Hl & Hrun & Hlfs
        & Flfs).
  pose proof (hero_check_frame (fun f => hero_msg (f_message f)) any_event
                path (py_get d "hero_id") s (fun _ _ Hm => Hm)
                (fun _ => conj I I) (add_findings c req)) as Hhf.
  rewrite Hh in Hhf. simpl in Hhf.
  destruct Hhf as (_ & _ & (hfs & Hhfs & Fhfs) & _).
  pose proof (sr_hero_check path (py_get d "hero_id") s
                (add_findings c req)) as Hsr.
  rewrite Hh in Hsr. simpl in Hsr.
  exists c1, hf, c2, acc, (req ++ hfs), lfs.
  split; [exact (hero_check_value _ _ _ _ _ _ Hh) |].
  split; [exact Hl |].
  split; [intro x; apply (Hsr x) |].
  split; [exact Hrun |].
  split.
  { rewrite Hhfs. simpl. now rewrite <- !app_assoc. }
  split; [| split; [exact Hlfs | exact Flfs]].
  apply Forall_app. split.
  - eapply Forall_impl; [| exact Freq]. intros f (name & ->).
    split; [reflexivity | exact I].
  - eapply Forall_impl; [| exact Fhfs]. intros f Hm. simpl in Hm.
    destruct (f_message f); simpl in *; tauto.
Qed.

Lemma deck_file_exact path d cards c :
  py_in "__load_error__" d = false ->
  py_get d "cards" = JList cards ->
  wt_deck d cards = true -> wt_ctx c = true ->
  let cons := constraints (deck_file (schema c)) in
  let hid := py_get d "hero_id" in
  exists c1 hf c2 acc pre,
    for_enum O cards acc0
      (deck_entry path hid hf (default true (c_same_faction_as_hero cons)))
      c1 = (c2, Ok acc) /\
    same_resolve c c1 /\
    validate_deck_file path (JObj d) c
    = (add_findings c2
         (size_findings path cons acc ++ copies_findings path cons acc
          ++ rare_findings path cons acc ++ unique_findings path cons acc
          ++ hero_copies_findings path cons acc), Ok tt) /\
    findings c2 = findings c ++ pre /\
    Forall (fun f => pre_msg (f_message f)) pre.
Proof.
  intros Hload Hcards Hwd Hwt cons hid.
  destruct (deck_file_stages_exact path d cards c Hload Hcards Hwd Hwt)
    as (c1 & hf & c2 & acc & before & lfs & _ & Hl & Hsr & Hrun & Hb & Fb
        & Hlfs & Flfs).
  exists c1, hf, c2, acc, (before ++ lfs).
  repeat split; auto.
  - now rewrite Hlfs, Hb, <- app_assoc.
  - apply Forall_app. split.
    + eapply Forall_impl; [| exact Fb]. now intros f (_ & Hm).
    + eapply Forall_impl; [| exact Flfs]. intros f Hm. simpl in Hm.
      destruct (f_message f); simpl in *; tauto.
Qed.

(** Which check a finding of the run comes from is decided by its
    message. *)
Ltac not_from_pre Fpre Hin Hm :=
  rewrite Forall_forall in Fpre; apply Fpre in Hin; rewrite Hm in Hin;
  simpl in Hin; tauto.

Ltac not_from_size Hin :=
  let Hx := fresh "Hx" in
  apply size_findings_spec in Hin; destruct Hin as (Hx & _);
  try discriminate Hx; subst; discriminate.

Ltac not_from_copies Hin :=
  let Hx := fresh "Hx" in
  unfold copies_findings in Hin; apply in_map_iff in Hin;
  destruct Hin as (? & Hx & _);
  try discriminate Hx; subst; discriminate.

Ltac not_from_flag Hin :=
  let Hx := fresh "Hx" in
  match type of Hin with
  | In _ (?g _ _ _) => unfold g in Hin
  end;
  cbv zeta in Hin;
  match type of Hin with
  | In _ (if ?b then _ else _) => destruct b
  end;
  [destruct Hin as [Hx | []]; try discriminate Hx; subst; discriminate
  | contradiction].

Ltac not_from_hero Hin :=
  let Hx := fresh "Hx" in
  apply hero_copies_findings_spec in Hin; destruct Hin as (Hx & _);
  try discriminate Hx; subst; discriminate.

Lemma rare_finding_origin path cons acc pre f a b :
  Forall (fun f => pre_msg (f_message f)) pre ->
  In f (pre ++ size_findings path cons acc ++ copies_findings path cons acc
        ++ rare_findings path cons acc ++ unique_findings path cons acc
        ++ hero_copies_findings path cons acc) ->
  f_message f = MTooManyRare a b ->
  In f (rare_findings path cons acc).
Proof.
  intros Fpre Hin Hm.
  apply in_app_or in Hin. destruct Hin as [Hin | Hin];
    [not_from_pre Fpre Hin Hm |].
  apply in_app_or in Hin. destruct Hin as [Hin | Hin]; [not_from_size Hin |].
  apply in_app_or in Hin. destruct Hin as [Hin | Hin];
    [not_from_copies Hin |].
  apply in_app_or in Hin. destruct Hin as [Hin | Hin]; [exact Hin |].
  apply in_app_or in Hin. destruct Hin as [Hin | Hin];
    [not_from_flag Hin | not_from_hero Hin].
Qed.

Lemma unique_finding_origin path cons acc pre f a b :
  Forall (fun f => pre_msg (f_message f)) pre ->
  In f (pre ++ size_findings path cons acc ++ copies_findings path cons acc
        ++ rare_findings path cons acc ++ unique_findings path cons acc
        ++ hero_copies_findings path cons acc) ->
  f_message f = MTooManyUnique a b ->
  In f (unique_findings path cons acc).
Proof.
  intros Fpre Hin Hm.
  apply in_app_or in Hin. destruct Hin as [Hin | Hin];
    [not_from_pre Fpre Hin Hm |].
  apply in_app_or in Hin. destruct Hin as [Hin | Hin]; [not_from_size Hin |].
  apply in_app_or in Hin. destruct Hin as [Hin | Hin];
    [not_from_copies Hin |].
  apply in_app_or in Hin. destruct Hin as [Hin | Hin];
    [not_from_flag Hin |].
  apply in_app_or in Hin. destruct Hin as [Hin | Hin];
    [exact Hin | not_from_hero Hin].
Qed.

Lemma rare_findings_spec path cons acc f :
  In f (rare_findings path cons acc) <->
  f = mkFinding path ERROR
        (MTooManyRare (rare_count acc) (default 15%Z (c_max_rare_cards cons)))
  /\ (rare_count acc > default 15 (c_max_rare_cards cons))%Z.
Proof.
  unfold rare_findings. cbv zeta.
  destruct (Z.gtb_spec (rare_count acc) (default 15 (c_max_rare_cards cons)))
    as [Hgt | Hle]; simpl.
  - split; [intros [<- | []]; split; [reflexivity | lia]
           | intros [-> _]; now left].
  - split; [intros [] | intros [_ H]; lia].
Qed.

Lemma unique_findings_spec path cons acc f :
  In f (unique_findings path cons acc) <->
  f = mkFinding path ERROR
        (MTooManyUnique (unique_count acc)
           (default 3%Z (c_max_unique_cards cons)))
  /\ (unique_count acc > default 3 (c_max_unique_cards cons))%Z.
Proof.
  unfold unique_findings. cbv zeta.
  destruct (Z.gtb_spec (unique_count acc)
              (default 3 (c_max_unique_cards cons)))
    as [Hgt | Hle]; simpl.
  - split; [intros [<- | []]; split; [reflexivity | lia]
           | intros [-> _]; now left].
  - split; [intros [] | intros [_ H]; lia].
Qed.

(** The rare cap.  Let n be the sum of [qty] over the well-shaped entries
    of a well-typed deck that resolve to a card whose upper-cased [rarity]
    is "R".  The validator returns, and it reports "too many rare cards"
    with n and the cap exactly when n exceeds [max_rare_cards] (15 unless
    configured); it reports no other finding of that kind. *)
Theorem deck_rare_cap path d cards c :
  py_in "__load_error__" d = false ->
  py_get d "cards" = JList cards ->
  wt_deck d cards = true -> wt_ctx c = true ->
  let cap :=
    default 15%Z (c_max_rare_cards (constraints (deck_file (schema c)))) in
  let n := counted_copies is_rare c cards in
  exists c' fs,
    validate_deck_file path (JObj d) c = (c', Ok tt) /\
    findings c' = findings c ++ fs /\
    (In (mkFinding path ERROR (MTooManyRare n cap)) fs <-> (n > cap)%Z) /\
    (forall f a b, In f fs -> f_message f = MTooManyRare a b ->
     f = mkFinding path ERROR (MTooManyRare n cap)).
Proof.
  intros Hload Hcards Hwd Hwt cap n.
  destruct (deck_file_exact path d cards c Hload Hcards Hwd Hwt)
    as (c1 & hf & c2 & acc & pre & Hl & Hsr & Hrun & Hfs & Fpre).
  set (cons := constraints (deck_file (schema c))) in *.
  destruct (deck_loop_counters _ _ _ _ _ _ _ _ _ _ Hl) as (Hr & _).
  rewrite (counted_copies_ext _ _ _ _ Hsr) in Hr. simpl in Hr.
  fold n in Hr.
  eexists. eexists. split; [exact Hrun |].
  split; [simpl; rewrite Hfs, <- app_assoc; reflexivity |].
  split.
  - split.
    + intro Hin0.
      pose proof (rare_finding_origin _ _ _ _ _ _ _ Fpre Hin0 eq_refl) as Hin.
      apply rare_findings_spec in Hin. rewrite Hr in Hin. apply Hin.
    + intro Hgt. apply in_or_app. right. apply in_or_app. right.
      apply in_or_app. right. apply in_or_app. left.
      apply rare_findings_spec. rewrite Hr. auto.
  - intros f a b Hin Hm.
    apply (rare_finding_origin _ _ _ _ _ _ _ Fpre Hin) in Hm.
    apply rare_findings_spec in Hm. rewrite Hr in Hm. apply Hm.
Qed.

(** The unique cap.  Let n be the sum of [qty] over the well-shaped entries
    of a well-typed deck that resolve to a card with a truthy [unique]
    field or whose upper-cased [rarity] is "U".  The validator returns, and
    it reports "too many unique cards" with n and the cap exactly when n
    exceeds [max_unique_cards] (3 unless configured); it reports no other
    finding of that kind. *)
Theorem deck_unique_cap path d cards c :
  py_in "__load_error__" d = false ->
  py_get d "cards" = JList cards ->
  wt_deck d cards = true -> wt_ctx c = true ->
  let cap :=
    default 3%Z (c_max_unique_cards (constraints (deck_file (schema c)))) in
  let n := counted_copies is_unique c cards in
  exists c' fs,
    validate_deck_file path (JObj d) c = (c', Ok tt) /\
    findings c' = findings c ++ fs /\
    (In (mkFinding path ERROR (MTooManyUnique n cap)) fs <-> (n > cap)%Z) /\
    (forall f a b, In f fs -> f_message f = MTooManyUnique a b ->
     f = mkFinding path ERROR (MTooManyUnique n cap)).
Proof.
  intros Hload Hcards Hwd Hwt cap n.
  destruct (deck_file_exact path d cards c Hload Hcards Hwd Hwt)
    as (c1 & hf & c2 & acc & pre & Hl & Hsr & Hrun & Hfs & Fpre).
  set (cons := constraints (deck_file (schema c))) in *.
  destruct (deck_loop_counters _ _ _ _ _ _ _ _ _ _ Hl) as (_ & Hu).
  rewrite (counted_copies_ext _ _ _ _ Hsr) in Hu. simpl in Hu.
  fold n in Hu.
  eexists. eexists. split; [exact Hrun |].
  split; [simpl; rewrite Hfs, <- app_assoc; reflexivity |].
  split.
  - split.
    + intro Hin0.
      pose proof (unique_finding_origin _ _ _ _ _ _ _ Fpre Hin0 eq_refl) as Hin.
      apply unique_findings_spec in Hin. rewrite Hu in Hin. apply Hin.
    + intro Hgt. apply in_or_app. right. apply in_or_app. right.
      apply in_or_app. right. apply in_or_app. right.
      apply in_or_app. left.
      apply unique_findings_spec. rewrite Hu. auto.
  - intros f a b Hin Hm.
    apply (unique_finding_origin _ _ _ _ _ _ _ Fpre Hin) in Hm.
    apply unique_findings_spec in Hm. rewrite Hu in Hm. apply Hm.
Qed.

Lemma deck_rare_cap_witness :
  exists c' fs,
    validate_deck_file ex_deck_path (JObj ex_rarity_deck) ex_rarity_ctx
    = (c', Ok tt) /\
    findings c' = findings ex_rarity_ctx ++ fs /\
    (In (mkFinding ex_deck_path ERROR (MTooManyRare 16 15)) fs <->
     (16 > 15)%Z) /\
    (forall f a b, In f fs -> f_message f = MTooManyRare a b ->
     f = mkFinding ex_deck_path ERROR (MTooManyRare 16 15)).
Proof.
  apply (deck_rare_cap ex_deck_path ex_rarity_deck ex_rarity_cards
           ex_rarity_ctx);
    reflexivity.
Defined.

Lemma deck_unique_cap_witness :
  exists c' fs,
    validate_deck_file ex_deck_path (JObj ex_rarity_deck) ex_rarity_ctx
    = (c', Ok tt) /\
    findings c' = findings ex_rarity_ctx ++ fs /\
    (In (mkFinding ex_deck_path ERROR (MTooManyUnique 4 3)) fs <->
     (4 > 3)%Z) /\
    (forall f a b, In f fs -> f_message f = MTooManyUnique a b ->
     f = mkFinding ex_deck_path ERROR (MTooManyUnique 4 3)).
Proof.
  apply (deck_unique_cap ex_deck_path ex_rarity_deck ex_rarity_cards
           ex_rarity_ctx);
    reflexivity.
Defined.

(** ** Deck files: the copies counted per name *)

Lemma Qeq_bool_sym (a b : Q) : Qeq_bool a b = Qeq_bool b a.
Proof.
  destruct (Qeq_bool a b) eqn:E, (Qeq_bool b a) eqn:E'; auto.
  - apply Qeq_bool_iff in E.
    assert (Qeq_bool b a = true) by (apply Qeq_bool_iff; now symmetry).
    congruence.
  - apply Qeq_bool_iff in E'.
    assert (Qeq_bool a b = true) by (apply Qeq_bool_iff; now symmetry).
    congruence.
Qed.

Lemma py_eq_sym (a b : json) : py_eq a b = py_eq b a.
Proof.
  destruct a, b; simpl; auto using Qeq_bool_sym, String.eqb_sym.
Qed.

Lemma index_lookup_congr {V} (k x : json) (idx : list (json * V)) :
  py_eq k x = true -> index_lookup k idx = index_lookup x idx.
Proof.
  intro H. induction idx as [| [k' v'] idx IH]; simpl; auto.
  now rewrite (py_eq_congr k x k' H), IH.
Qed.

Lemma index_lookup_set_eq {V} (k nm : json) (v : V) (idx : list (json * V)) :
  py_eq k nm = true -> index_lookup nm (index_set k v idx) = Some v.
Proof.
  intro H. induction idx as [| [k' v'] idx IH]; simpl.
  - now rewrite H.
  - rewrite (py_eq_congr k nm k' H).
    destruct (py_eq k' nm) eqn:E; simpl; rewrite E; auto.
Qed.

Lemma index_lookup_set_neq {V} (k nm : json) (v : V) (idx : list (json * V)) :
  py_eq k nm = false -> index_lookup nm (index_set k v idx)
                        = index_lookup nm idx.
Proof.
  intro H. induction idx as [| [k' v'] idx IH]; simpl.
  - now rewrite H.
  - destruct (py_eq k' k) eqn:E; simpl.
    + assert (E' : py_eq k' nm = false).
      { rewrite py_eq_sym, (py_eq_congr k' k nm E), py_eq_sym. exact H. }
      now rewrite E'.
    + destruct (py_eq k' nm); auto.
Qed.

Lemma index_lookup_key {V} (nm : json) (v : V) (idx : list (json * V)) :
  index_lookup nm idx = Some v ->
  exists k, In (k, v) idx /\ py_eq k nm = true.
Proof.
  induction idx as [| [k' v'] idx IH]; simpl; [discriminate |].
  destruct (py_eq k' nm) eqn:E.
  - intro H. inversion H; subst. eauto.
  - intro H. destruct (IH H) as (k & Hin & Hk). eauto.
Qed.

Lemma index_lookup_none {V} (nm k : json) (v : V) (idx : list (json * V)) :
  index_lookup nm idx = None -> In (k, v) idx -> py_eq k nm = false.
Proof.
  induction idx as [| [k' v'] idx IH]; simpl; [intros _ [] |].
  destruct (py_eq k' nm) eqn:E; [discriminate |].
  intros Hn [Heq | Hin]; auto. inversion Heq; subst. exact E.
Qed.

Lemma distinct_keys_set {V} (k : json) (v : V) (idx : list (json * V)) :
  py_eq k k = true -> distinct_keys idx -> distinct_keys (index_set k v idx).
Proof.
  intro Hk. induction idx as [| [k' v'] idx IH]; simpl.
  - auto.
  - intros (Hk' & Hn & Hd). destruct (py_eq k' k) eqn:E; simpl.
    + auto.
    + split; [exact Hk' |]. split; [| auto].
      rewrite index_lookup_set_neq; [exact Hn |].
      now rewrite py_eq_sym.
Qed.

Lemma distinct_keys_lookup {V} (k : json) (v : V) (idx : list (json * V)) :
  distinct_keys idx -> In (k, v) idx -> index_lookup k idx = Some v.
Proof.
  induction idx as [| [k' v'] idx IH]; simpl; [intros _ [] |].
  intros (Hk' & Hn & Hd) [Heq | Hin].
  - inversion Heq; subst. now rewrite Hk'.
  - assert (E : py_eq k' k = false).
    { rewrite py_eq_sym. eapply index_lookup_none; eauto. }
    rewrite E. auto.
Qed.

Lemma deck_entry_resolved_name path hid hf same i cid q meta acc c c' acc' :
  deck_entry_resolved path hid hf same i cid q meta acc c = (c', Ok acc') ->
  hashable (display_name meta cid) = true.
Proof.
  unfold deck_entry_resolved. cbv zeta.
  destruct (hashable (display_name meta cid)); [reflexivity |].
  simpl. discriminate.
Qed.

(** One iteration, seen through the dictionary of name counts. *)
Lemma deck_entry_names path hid hf same i entry acc c c1 acc1 :
  deck_entry path hid hf same i entry acc c = (c1, Ok acc1) ->
  (distinct_keys (name_counts acc) -> distinct_keys (name_counts acc1)) /\
  forall nm,
    index_lookup nm (name_counts acc1)
    = match well_shaped entry with
      | None => index_lookup nm (name_counts acc)
      | Some (cid, q) =>
          match found (resolve c cid) with
          | None => index_lookup nm (name_counts acc)
          | Some meta =>
              if py_eq (display_name meta cid) nm
              then Some (default 0 (index_lookup nm (name_counts acc)) + q)%Z
              else index_lookup nm (name_counts acc)
          end
      end.
Proof.
  intro H. pose proof (deck_entry_counters _ _ _ _ _ _ _ _ _ _ H) as Hc.
  destruct (well_shaped entry) as [[cid q] |] eqn:Ews;
    [| subst acc1; auto].
  destruct (found (resolve c cid)) as [meta |] eqn:Ef.
  - destruct Hc as (_ & _ & Hn).
    assert (Hh : hashable (display_name meta cid) = true).
    { unfold deck_entry in H.
      destruct entry as [| b | z | x | s | l | e]; try discriminate.
      unfold well_shaped in Ews.
      destruct (truthy (py_get e "card_id")) eqn:Tc; [| discriminate].
      destruct (as_int (py_get e "qty")) as [q' |] eqn:Eq; [| discriminate].
      inversion Ews; subst cid q'. clear Ews.
      destruct (isinstance_int_as_int _ _ Eq) as (Hi & Hv).
      simpl negb in H. rewrite Hi, Hv in H. simpl in H.
      unfold bind at 1 in H.
      destruct (_load_card_meta (py_get e "card_id") c)
        as [c0 [r | ex]] eqn:El; [| discriminate].
      apply load_card_meta_resolve in El. destruct El as (-> & _).
      rewrite Ef in H.
      now apply deck_entry_resolved_name in H. }
    rewrite Hn. split.
    + apply distinct_keys_set. now apply py_eq_refl.
    + intro nm. destruct (py_eq (display_name meta cid) nm) eqn:E.
      * rewrite (index_lookup_set_eq _ _ _ _ E).
        now rewrite (index_lookup_congr _ _ _ E).
      * now apply index_lookup_set_neq.
  - destruct Hc as (_ & _ & ->). auto.
Qed.

Lemma name_copies_ext c c' nm cards :
  same_resolve c c' ->
  name_copies c' nm cards = name_copies c nm cards /\
  named c' nm cards = named c nm cards.
Proof.
  intro Hsr. induction cards as [| entry cards [IH1 IH2]]; simpl; auto.
  destruct (well_shaped entry) as [[cid q] |]; auto.
  rewrite (Hsr cid), IH1, IH2. auto.
Qed.

(** The dictionary of name counts a returning loop ends with. *)
Lemma deck_loop_names path hid hf same cards :
  forall i acc c c' acc',
    for_enum i cards acc (deck_entry path hid hf same) c = (c', Ok acc') ->
    (distinct_keys (name_counts acc) -> distinct_keys (name_counts acc')) /\
    forall nm,
      index_lookup nm (name_counts acc')
      = match index_lookup nm (name_counts acc) with
        | Some v => Some (v + name_copies c nm cards)%Z
        | None =>
            if named c nm cards then Some (name_copies c nm cards) else None
        end.
Proof.
  induction cards as [| entry cards IH]; intros i acc c c' acc' H; simpl in H.
  - inversion H; subst. split; auto. intro nm. simpl.
    destruct (index_lookup nm (name_counts acc')); auto.
    f_equal. lia.
  - unfold bind in H.
    destruct (deck_entry path hid hf same i entry acc c)
      as [c1 [acc1 |]] eqn:E; [| discriminate].
    pose proof (sr_deck_entry path hid hf same i entry acc c) as Hsr.
    rewrite E in Hsr. simpl in Hsr.
    apply deck_entry_names in E. destruct E as (Hd1 & Hn1).
    apply IH in H. destruct H as (Hd & Hn).
    split; [auto |]. intro nm.
    destruct (name_copies_ext c c1 nm cards Hsr) as (Ec & En).
    rewrite Hn, Hn1, Ec, En. simpl.
    destruct (well_shaped entry) as [[cid q] |].
    + destruct (found (resolve c cid)) as [meta |].
      * destruct (py_eq (display_name meta cid) nm); simpl.
        -- destruct (index_lookup nm (name_counts acc)); simpl;
             f_equal; lia.
        -- reflexivity.
      * reflexivity.
    + reflexivity.
Qed.

Lemma copies_finding_origin path cons acc pre f m nm cnt :
  Forall (fun f => pre_msg (f_message f)) pre ->
  In f (pre ++ size_findings path cons acc ++ copies_findings path cons acc
        ++ rare_findings path cons acc ++ unique_findings path cons acc
        ++ hero_copies_findings path cons acc) ->
  f_message f = MTooManyCopies m nm cnt ->
  In f (copies_findings path cons acc).
Proof.
  intros Fpre Hin Hm.
  apply in_app_or in Hin. destruct Hin as [Hin | Hin];
    [not_from_pre Fpre Hin Hm |].
  apply in_app_or in Hin. destruct Hin as [Hin | Hin]; [not_from_size Hin |].
  apply in_app_or in Hin. destruct Hin as [Hin | Hin]; [exact Hin |].
  apply in_app_or in Hin. destruct Hin as [Hin | Hin];
    [not_from_flag Hin |].
  apply in_app_or in Hin. destruct Hin as [Hin | Hin];
    [not_from_flag Hin | not_from_hero Hin].
Qed.

Lemma copies_findings_spec path cons acc f :
  In f (copies_findings path cons acc) <->
  exists nm cnt,
    In (nm, cnt) (name_counts acc) /\
    (cnt > default 3 (c_max_same_card cons))%Z /\
    f = mkFinding path ERROR
          (MTooManyCopies (default 3%Z (c_max_same_card cons)) nm cnt).
Proof.
  unfold copies_findings. cbv zeta. rewrite in_map_iff. split.
  - intros ([nm cnt] & <- & Hin). apply filter_In in Hin.
    destruct Hin as (Hin & Hgt). simpl in Hgt.
    exists nm, cnt. repeat split; auto. now apply Z.gtb_gt.
  - intros (nm & cnt & Hin & Hgt & ->). exists (nm, cnt).
    split; [reflexivity |]. apply filter_In. split; auto.
    simpl. now apply Z.gtb_gt.
Qed.

(** The copy limit.  The copies of a name are the sum of [qty] over the
    well-shaped entries of a well-typed deck that resolve to a card of that
    display name ([name], else [title], else the card id).  The validator
    returns; every "more than N copies" finding it reports carries the cap,
    a name that some counted entry goes by and the copies of that name,
    which exceed the cap; and for every name whose copies exceed the cap
    such a finding is reported, under the key the name was first counted
    with. *)
Theorem deck_copy_limit path d cards c :
  py_in "__load_error__" d = false ->
  py_get d "cards" = JList cards ->
  wt_deck d cards = true -> wt_ctx c = true ->
  let cap :=
    default 3%Z (c_max_same_card (constraints (deck_file (schema c)))) in
  exists c' fs,
    validate_deck_file path (JObj d) c = (c', Ok tt) /\
    findings c' = findings c ++ fs /\
    (forall f m nm cnt,
       In f fs -> f_message f = MTooManyCopies m nm cnt ->
       f = mkFinding path ERROR
             (MTooManyCopies cap nm (name_copies c nm cards)) /\
       named c nm cards = true /\
       (name_copies c nm cards > cap)%Z) /\
    (forall nm,
       named c nm cards = true -> (name_copies c nm cards > cap)%Z ->
       exists key,
         py_eq key nm = true /\
         In (mkFinding path ERROR
               (MTooManyCopies cap key (name_copies c nm cards))) fs).
Proof.
  intros Hload Hcards Hwd Hwt cap.
  destruct (deck_file_exact path d cards c Hload Hcards Hwd Hwt)
    as (c1 & hf & c2 & acc & pre & Hl & Hsr & Hrun & Hfs & Fpre).
  set (cons := constraints (deck_file (schema c))) in *.
  destruct (deck_loop_names _ _ _ _ _ _ _ _ _ _ Hl) as (Hd & Hn).
  specialize (Hd I). simpl in Hn.
  assert (Hlook : forall nm,
            index_lookup nm (name_counts acc)
            = if named c nm cards then Some (name_copies c nm cards)
              else None).
  { intro nm. rewrite Hn.
    destruct (name_copies_ext c c1 nm cards Hsr) as (-> & ->).
    reflexivity. }
  eexists. eexists. split; [exact Hrun |].
  split; [simpl; rewrite Hfs, <- app_assoc; reflexivity |].
  split.
  - intros f m nm cnt Hin Hm.
    pose proof (copies_finding_origin _ _ _ _ _ _ _ _ Fpre Hin Hm) as Ho.
    apply copies_findings_spec in Ho.
    destruct Ho as (nm' & cnt' & Hnc & Hgt & ->).
    simpl in Hm. inversion Hm; subst m nm' cnt'. clear Hm.
    apply (distinct_keys_lookup _ _ _ Hd) in Hnc.
    rewrite Hlook in Hnc.
    destruct (named c nm cards); [| discriminate].
    inversion Hnc; subst cnt. auto.
  - intros nm Hnamed Hgt.
    pose proof (Hlook nm) as Hk. rewrite Hnamed in Hk.
    apply index_lookup_key in Hk. destruct Hk as (key & Hin & Hkey).
    exists key. split; [exact Hkey |].
    apply in_or_app. right. apply in_or_app. right. apply in_or_app. left.
    apply copies_findings_spec. exists key, (name_copies c nm cards).
    auto.
Qed.

Lemma deck_copy_limit_witness :
  exists key,
    py_eq key (JStr "R1") = true /\
    In (mkFinding ex_deck_path ERROR (MTooManyCopies 3 key 16))
      (findings
         (fst (validate_deck_file ex_deck_path (JObj ex_rarity_deck)
                 ex_rarity_ctx))).
Proof.
  destruct (deck_copy_limit ex_deck_path ex_rarity_deck ex_rarity_cards
              ex_rarity_ctx eq_refl eq_refl eq_refl eq_refl)
    as (c' & fs & Hrun & Hfs & _ & Hyes).
  destruct (Hyes (JStr "R1") eq_refl eq_refl) as (key & Hkey & Hin).
  exists key. split; [exact Hkey |].
  rewrite Hrun. simpl fst. rewrite Hfs. apply in_or_app. now right.
Defined.

(** ** Which paths are card files *)

Lemma list_index_some (x : string) (l : list string) (i : nat) :
  list_index x l = Some i <->
  exists pre post,
    l = pre ++ x :: post /\ ~ In x pre /\ List.length pre = i.
Proof.
  revert i. induction l as [| y l IH]; intro i; simpl.
  - split; [discriminate |].
    intros (pre & post & H & _). destruct pre; discriminate.
  - destruct (String.eqb_spec y x) as [-> | Hne].
    + split.
      * intro H. inversion H; subst. exists [], l. auto.
      * intros (pre & post & H & Hnin & <-).
        destruct pre as [| z pre]; [reflexivity |].
        inversion H; subst. exfalso. apply Hnin. now left.
    + destruct (list_index x l) as [j |] eqn:E.
      * split.
        -- intro H. inversion H; subst.
           destruct (proj1 (IH j) eq_refl) as (pre & post & -> & Hnin & <-).
           exists (y :: pre), post. repeat split; auto.
           intros [H1 | H1]; auto.
        -- intros (pre & post & H & Hnin & <-).
           destruct pre as [| z pre]; inversion H; subst; [congruence |].
           simpl. f_equal. symmetry.
           assert (Hj : Some j = Some (List.length pre)).
           { apply IH. exists pre, post. repeat split; auto.
             intro Hin. apply Hnin. now right. }
           now inversion Hj.
      * split; [discriminate |].
        intros (pre & post & H & Hnin & <-).
        destruct pre as [| z pre]; inversion H; subst; [congruence |].
        assert (Hj : None = Some (List.length pre)).
        { apply IH. exists pre, post. repeat split; auto.
          intro Hin. apply Hnin. now right. }
        discriminate.
Qed.

(** A path is taken for a card file exactly when its suffix is [.json] in
    any case and at least four more segments follow the first segment named
    [CARDS] (language, set, faction and file name, possibly more): later
    segments named [CARDS] do not count. *)
Theorem looks_like_card_file_iff (p : Path) :
  looks_like_card_file p = true <->
  is_json p = true /\
  exists pre post,
    parts p = pre ++ "CARDS" :: post /\ ~ In "CARDS" pre /\
    (4 <= List.length post)%nat.
Proof.
  unfold looks_like_card_file. split.
  - destruct (list_index "CARDS" (parts p)) as [i |] eqn:E; [| discriminate].
    intro H. apply andb_true_iff in H. destruct H as [Hlen Hjson].
    split; [exact Hjson |].
    apply list_index_some in E. destruct E as (pre & post & Hp & Hnin & <-).
    exists pre, post. repeat split; auto.
    apply Nat.leb_le in Hlen. rewrite Hp, length_app in Hlen.
    simpl in Hlen. lia.
  - intros (Hjson & pre & post & Hp & Hnin & Hlen).
    assert (E : list_index "CARDS" (parts p) = Some (List.length pre)).
    { apply list_index_some. exists pre, post. auto. }
    rewrite E, Hjson, andb_true_r. apply Nat.leb_le.
    rewrite Hp, length_app. simpl. lia.
Qed.

(** ** The summary and the exit status *)

Lemma existsb_filter {A} (f : A -> bool) (l : list A) :
  existsb f l = match filter f l with [] => false | _ :: _ => true end.
Proof.
  induction l as [| x l IH]; simpl; auto.
  destruct (f x); simpl; auto.
Qed.

(** The exit status of [main] and the result word of the summary agree:
    the process exits with 1 exactly when the summary ends in FAIL, and
    with 0 exactly when it ends in OK. *)
Theorem exit_code_matches_summary (c : Context) (strict : bool) :
  (exit_code c strict = 1%Z <-> result (print_summary c strict) = FAIL) /\
  (exit_code c strict = 0%Z <-> result (print_summary c strict) = OK).
Proof.
  unfold exit_code, print_summary, has_errors, has_warnings. simpl.
  rewrite !existsb_filter.
  destruct (filter is_error (findings c)), strict,
    (filter is_warn (findings c)); simpl;
    repeat split; intros; try reflexivity; try discriminate.
Qed.

Lemma existsb_app_true {A} (f : A -> bool) (l l' : list A) :
  existsb f l = true -> existsb f (l ++ l') = true.
Proof. intro H. rewrite existsb_app, H. reflexivity. Qed.

(** A failing exit status is never taken back: once the findings make
    [main] exit with 1, they still do after any further card-file,
    collection-file and deck-file validations and lookups, and switching
    strict mode on never turns a failure into a success. *)
Theorem exit_code_monotone (c c' : Context) (strict strict' : bool) :
  index_steps c c' ->
  (strict = true -> strict' = true) ->
  exit_code c strict = 1%Z -> exit_code c' strict' = 1%Z.
Proof.
  intros Hsteps Hstrict. apply index_steps_extends in Hsteps.
  destruct Hsteps as (_ & _ & (fs & Hfs & _) & _).
  unfold exit_code, has_errors, has_warnings. rewrite Hfs.
  destruct (existsb is_error (findings c)) eqn:Ee; simpl.
  - intros _. now rewrite (existsb_app_true _ _ fs Ee).
  - destruct strict; simpl; [| discriminate].
    rewrite (Hstrict eq_refl).
    destruct (existsb is_warn (findings c)) eqn:Ew; [| discriminate].
    intros _. rewrite (existsb_app_true _ _ fs Ew).
    now rewrite orb_true_r.
Qed.

Lemma exit_code_monotone_witness :
  exit_code
    (fst (validate_collection_file ex_collection_path
            (JObj [("count", JInt 150)])
            (fst (validate_collection_file ex_collection_path ex_no_count
                    ex_ctx))))
    true = 1%Z.
Proof.
  apply (exit_code_monotone
           (fst (validate_collection_file ex_collection_path ex_no_count
                   ex_ctx)) _ false true).
  - eapply steps_next; [apply steps_done | apply step_collection_file].
  - discriminate.
  - reflexivity.
Defined.

(** ** Deck files: footprint *)

(** Whatever the document, and whether the validator returns or raises: it
    leaves the tree and the schema alone and only appends to the findings,
    the index and the trace; every finding it adds is an ERROR about the
    deck's own path (a deck never gets a WARN), and it looks up only truthy
    ids. *)
Theorem validate_deck_file_footprint path data c :
  extends (error_on path) truthy_event c
    (fst (validate_deck_file path data c)).
Proof.
  revert c. change (frame (extends (error_on path) truthy_event)
                      (validate_deck_file path data)).
  unfold validate_deck_file, deck_checks, hero_check, deck_entry,
    deck_entry_resolved, deck_totals.
  repeat frame_step; try (split; reflexivity); truthy_id.
Qed.

(** ** Deck files: well-typed documents never raise *)

Lemma deck_file_returns path data c :
  wt_ctx c = true -> deck_typed data = true ->
  exists c', validate_deck_file path data c = (c', Ok tt) /\ wt_ctx c' = true.
Proof.
  intros Hwt Hty.
  destruct data as [| b | z | q | s | l | d];
    try (exists (add_findings c [mkFinding path ERROR MDeckNotObject]);
         split; [reflexivity | exact Hwt]).
  simpl in Hty. destruct (py_in "__load_error__" d) eqn:Hload.
  - eexists. split.
    + unfold validate_deck_file, bind, get_ctx.
      change (is_load_error (JObj d)) with (py_in "__load_error__" d).
      rewrite Hload. reflexivity.
    + exact Hwt.
  - simpl in Hty. apply andb_true_iff in Hty. destruct Hty as [Hfac Hcards].
    destruct (upper_field_ok d "faction" Hfac) as (s & Hs).
    destruct (py_or (py_get d "cards") (JList [])) as [| | | | | cards |]
      eqn:Ec.
    6: {
      apply andb_true_iff in Hcards. destruct Hcards as [Hhero Hentries].
      destruct (deck_file_stages path d cards c s Hload Hs Ec)
        as (req & _ & Hrun).
      destruct (hero_check_ok path (py_get d "hero_id") s
                  (add_findings c req) Hwt Hhero)
        as (c1 & hf & Hh & Hwt1).
      destruct (deck_loop_ok path (py_get d "hero_id") hf
                  (default true
                     (c_same_faction_as_hero
                        (constraints (deck_file (schema c)))))
                  cards O acc0 c1 Hwt1 Hentries) as (c2 & acc & Hl & Hwt2).
      eexists. split.
      - rewrite Hrun. unfold deck_checks.
        unfold bind at 1. rewrite Hh. unfold bind at 1. rewrite Hl.
        apply deck_totals_exact.
      - exact Hwt2. }
    all: destruct (deck_required_run
                     (deck_required_fields (deck_file (schema c)))
                     path d c) as (req & Hreq & _);
      eexists; (split;
        [unfold validate_deck_file, bind at 1, get_ctx;
         change (is_load_error (JObj d)) with (py_in "__load_error__" d);
         rewrite Hload; unfold bind at 1; rewrite Hreq;
         unfold bind at 1, lift; rewrite Hs, Ec; reflexivity
        | exact Hwt]).
Qed.

(** The deck pass over well-typed documents, in a well-typed context, never
    raises: it returns, and it leaves the context well typed, so that
    whatever is validated next starts from a well-typed context again. *)
Theorem scan_decks_returns (files : list (Path * json)) (c : Context) :
  wt_ctx c = true ->
  forallb (fun f => deck_typed (snd f)) files = true ->
  exists c', scan_decks files c = (c', Ok tt) /\ wt_ctx c' = true.
Proof.
  unfold scan_decks. revert c.
  induction files as [| [p data] files IH]; intros c Hwt Hty; simpl.
  - eexists. split; [reflexivity | exact Hwt].
  - simpl in Hty. apply andb_true_iff in Hty. destruct Hty as [Hd Hrest].
    unfold bind. destruct (looks_like_deck_file p); simpl.
    + destruct (deck_file_returns p data c Hwt Hd) as (c1 & Hrun & Hwt1).
      rewrite Hrun. now apply IH.
    + now apply IH.
Qed.

Lemma scan_decks_returns_witness :
  exists c',
    scan_decks [(ex_deck_path, JObj ex_rarity_deck);
                (ex_deck_path, JObj ex_deck_no_hero)] ex_rarity_ctx
    = (c', Ok tt) /\
    wt_ctx c' = true.
Proof.
  apply (scan_decks_returns
           [(ex_deck_path, JObj ex_rarity_deck);
            (ex_deck_path, JObj ex_deck_no_hero)] ex_rarity_ctx);
    reflexivity.
Defined.

(** ** After the card pass, the index is settled *)

Lemma truthy_num (a : json) (x : Q) :
  num_val a = Some x -> truthy a = negb (Qeq_bool x (0 # 1)).
Proof.
  destruct a as [| b | z | q | s | l | o]; simpl; try discriminate;
    intro H; inversion H; subst; clear H.
  - destruct b; reflexivity.
  - f_equal. destruct (Z.eqb_spec z 0) as [-> | Hz]; [reflexivity |].
    destruct (Qeq_bool (inject_Z z) (0 # 1)) eqn:E; [| reflexivity].
    apply Qeq_bool_iff in E. unfold Qeq in E. simpl in E. lia.
  - reflexivity.
Qed.

(** Equal values are truthy alike. *)
Lemma py_eq_truthy (a b : json) : py_eq a b = true -> truthy a = truthy b.
Proof.
  intro H.
  assert (Hnum : forall x y, num_val a = Some x -> num_val b = Some y ->
                   Qeq_bool x y = true -> truthy a = truthy b).
  { intros x y Ha Hb Hxy.
    rewrite (truthy_num a x Ha), (truthy_num b y Hb). f_equal.
    rewrite (Qeq_bool_sym x), (Qeq_bool_sym y).
    now apply Qeq_bool_congr. }
  destruct a, b; simpl in H; try discriminate; try reflexivity;
    try (eapply Hnum; [reflexivity | reflexivity | exact H]).
  apply String.eqb_eq in H. now subst.
Qed.

Lemma find_in_list_mem (k : json) (l : list json) (o : obj) :
  find_in_list k l = Some o -> In (JObj o) l.
Proof.
  induction l as [| v l IH]; simpl; [discriminate |].
  destruct v; auto.
  destruct (py_eq (py_get o0 "id") k).
  - intro H. inversion H; subst. now left.
  - auto.
Qed.

Lemma card_file_returns_typed path data c c' :
  validate_card_file path data c = (c', Ok tt) ->
  card_file_typed (card_file (schema c)) data = true.
Proof.
  intro Hrun. unfold card_file_typed.
  destruct (is_load_error data) eqn:Herr; [reflexivity |]. simpl.
  unfold validate_card_file, bind, get_ctx in Hrun. cbv zeta beta iota in Hrun.
  rewrite Herr in Hrun.
  apply (for_enum_outcome (card_item_typed (card_file (schema c)))
           (fun i item _ =>
              validate_card_item (card_file (schema c)) path
                (default (RPlus RDot) (id_pattern (card_file (schema c))))
                i item)
           (items_of data)
           (fun i x c0 => validate_card_item_outcome _ _ _ i x c0) O c).
  now rewrite Hrun.
Qed.

(** In a returning card pass every card file had the assumed types. *)
Lemma scan_cards_typed (files : list (Path * json)) :
  forall c c',
    for_each files (fun f =>
      when (looks_like_card_file (fst f))
        (validate_card_file (fst f) (snd f))) c = (c', Ok tt) ->
    forall p data, In (p, data) files -> looks_like_card_file p = true ->
      card_file_typed (card_file (schema c)) data = true.
Proof.
  induction files as [| [p0 data0] files IH]; intros c c' Hrun p data Hin Hp;
    [destruct Hin |].
  simpl for_each in Hrun. unfold bind in Hrun. simpl fst in Hrun.
  simpl snd in Hrun.
  destruct (looks_like_card_file p0) eqn:Hp0; simpl when in Hrun.
  - destruct (validate_card_file p0 data0 c) as [c1 [[] | e]] eqn:E;
      [| discriminate].
    pose proof (validate_card_file_grows p0 data0 c) as Hg.
    rewrite E in Hg. destruct Hg as (_ & Hschema & _). simpl in Hschema.
    destruct Hin as [Heq | Hin].
    + inversion Heq; subst. eapply card_file_returns_typed; eauto.
    + rewrite <- Hschema. eapply IH; eauto.
  - unfold ret in Hrun. destruct Hin as [Heq | Hin].
    + inversion Heq; subst. congruence.
    + eapply IH; eauto.
Qed.

(** What the tree search finds in card files of the assumed types has a
    string or falsy id. *)
Lemma scan_tree_typed (rule : CardRule) (k : json)
  (files : list (Path * json)) (o : obj) :
  plain_load_errors files = true ->
  (forall p data, In (p, data) files -> looks_like_card_file p = true ->
     card_file_typed rule data = true) ->
  scan_tree k files = Some o ->
  str_or_falsy (py_get o "id") = true.
Proof.
  induction files as [| [p data] files IH]; intros Hplain Hty;
    [discriminate |].
  simpl in Hplain. apply andb_true_iff in Hplain.
  destruct Hplain as [Hp Hplain].
  rewrite scan_tree_cons.
  assert (Hrest : scan_tree k files = Some o ->
                  str_or_falsy (py_get o "id") = true).
  { apply IH; auto. intros p' d' Hin. apply Hty. now right. }
  destruct (looks_like_card_file p) eqn:Hlook; auto.
  destruct (find_in_list k (items_of data)) as [o' |] eqn:Ef; auto.
  intro H. inversion H; subst o'. clear H.
  apply find_in_list_mem in Ef.
  specialize (Hty p data (or_introl eq_refl) Hlook).
  unfold card_file_typed in Hty.
  destruct (is_load_error data) eqn:Herr.
  - destruct data; try discriminate. simpl in Ef.
    destruct Ef as [Heq | []]. inversion Heq; subst.
    simpl in Herr, Hp. rewrite Herr in Hp. simpl in Hp.
    unfold py_in in Hp. unfold py_get, py_get_d.
    destruct (dict_get o "id"); [discriminate | reflexivity].
  - simpl in Hty. rewrite forallb_forall in Hty.
    specialize (Hty _ Ef). simpl in Hty.
    apply andb_true_iff in Hty. destruct Hty as [Hty _].
    apply andb_true_iff in Hty. now destruct Hty as [Hty _].
Qed.

(** A returning card pass leaves a complete index. *)
Lemma scan_cards_complete c c' :
  scan_cards c = (c', Ok tt) ->
  plain_load_errors (root c) = true ->
  complete c'.
Proof.
  intros Hrun Hplain.
  assert (Hroot : root c' = root c).
  { pose proof (scan_cards_grows c) as Hg. rewrite Hrun in Hg. apply Hg. }
  unfold scan_cards, bind, get_ctx in Hrun. simpl in Hrun.
  intros k Hk Hnone. rewrite Hroot.
  destruct (scan_tree k (root c)) as [o |] eqn:Es; [| reflexivity].
  exfalso.
  pose proof (scan_tree_typed _ k (root c) o Hplain
                (scan_cards_typed _ _ _ Hrun) Es) as Hid.
  pose proof (scan_tree_id _ _ _ Es) as Heq.
  pose proof (py_eq_truthy _ _ Heq) as Htr. rewrite Hk in Htr.
  destruct (py_get o "id") as [| b | z | q | s | l | d] eqn:Eid;
    try (unfold str_or_falsy in Hid; rewrite Htr in Hid; discriminate).
  destruct k as [| b | z | q | t | l | d]; simpl in Heq; try discriminate.
  apply String.eqb_eq in Heq. subst t.
  assert (Hs : s <> "").
  { intros ->. simpl in Hk. discriminate. }
  rewrite (scan_cards_loop s _ Hs Hplain _ _ Hrun), Es in Hnone.
  destruct (index_lookup (JStr s) (card_index c)); discriminate.
Qed.

#[export] Instance keeps_index_frame : FrameRel keeps_index.
Proof.
  split.
  - intros c _. auto.
  - intros a b c Hab Hbc Ha. destruct (Hab Ha) as (Hi & Hr).
    assert (Hb : complete b).
    { intros k Hk. rewrite Hi, Hr. now apply Ha. }
    destruct (Hbc Hb) as (Hi' & Hr'). split; congruence.
Qed.

Lemma ki_add p l m : frame keeps_index (add p l m).
Proof. intros c _. auto. Qed.

Lemma ki_load_card_meta card_id :
  truthy card_id = true -> frame keeps_index (_load_card_meta card_id).
Proof.
  intros Hk c Hc.
  unfold _load_card_meta, bind, log, get_ctx; simpl.
  destruct (hashable card_id); simpl; auto.
  destruct (index_lookup card_id (card_index c)) eqn:Ek; simpl; auto.
  rewrite (Hc card_id Hk Ek). simpl. auto.
Qed.

Lemma ki_scan_decks files : frame keeps_index (scan_decks files).
Proof.
  unfold scan_decks. apply frame_for_each; [typeclasses eauto |].
  intros f _. apply frame_when; [typeclasses eauto |]. intros _.
  apply validate_deck_file_frame;
    [typeclasses eauto | apply ki_add | apply ki_load_card_meta].
Qed.

Lemma ki_scan_collections files : frame keeps_index (scan_collections files).
Proof.
  unfold scan_collections. apply frame_for_each; [typeclasses eauto |].
  intros f _. apply frame_when; [typeclasses eauto |]. intros _.
  apply validate_collection_file_frame; [typeclasses eauto | apply ki_add].
Qed.

(** Once the card pass has returned, the index is settled: the collection
    pass and the deck pass that follow it leave the index exactly as the
    card pass built it, whatever the collections and decks contain and
    whether or not a deck makes the validator raise.  The tree search of
    [_load_card_meta] finds nothing that the card pass has not indexed. *)
Theorem index_settled_after_card_pass c c1
  (collections decks : list (Path * json)) :
  scan_cards c = (c1, Ok tt) ->
  plain_load_errors (root c) = true ->
  card_index (fst ((scan_collections collections ;;; scan_decks decks) c1))
  = card_index c1.
Proof.
  intros Hrun Hplain.
  pose proof (scan_cards_complete c c1 Hrun Hplain) as Hc.
  assert (Hf : frame keeps_index
                 (scan_collections collections ;;; scan_decks decks)).
  { apply frame_bind; [typeclasses eauto | apply ki_scan_collections |].
    intros _. apply ki_scan_decks. }
  now destruct (Hf c1 Hc).
Qed.

Lemma index_settled_after_card_pass_witness :
  card_index
    (fst ((scan_collections [(ex_collection_path, ex_no_count)] ;;;
           scan_decks [(ex_deck_path, JObj ex_deck)])
            (fst (scan_cards ex_tree_ctx))))
  = card_index (fst (scan_cards ex_tree_ctx)).
Proof.
  apply (index_settled_after_card_pass ex_tree_ctx); reflexivity.
Defined.

(** ** Normalised card types *)












Lemma mapping_get_cases (v : string) :
  mapping_get type_mapping v v = v \/
  In (mapping_get type_mapping v v)
    ["hero"; "companion"; "character"; "spell"; "permanent"; "token"].
Proof.
  unfold type_mapping. simpl.
  repeat match goal with
         | |- context [if ?b then _ else _] =>
             destruct b; [right; simpl; tauto |]
         end.
  now left.
Qed.




(** ** Deck files: the faction rule *)






(** ** Deck files: the hero check *)

Lemma hero_check_exact path hid df c c1 hf :
  hero_check path hid df c = (c1, Ok hf) ->
  findings c1 = findings c ++ hero_findings path c hid df.
Proof.
  unfold hero_check, hero_findings.
  destruct (truthy hid); cbn [negb]; cbv iota.
  - unfold bind at 1.
    destruct (_load_card_meta hid c) as [c0 [r | ex]] eqn:El;
      [| discriminate].
    apply load_card_meta_resolve in El. destruct El as (-> & _ & Hf & _).
    destruct (found (resolve c hid)) as [meta |].
    + intro H. run_inv H; simpl; rewrite Hf, <- ?app_assoc;
        try reflexivity; now rewrite app_nil_r.
    + intro H. run_inv H. simpl. now rewrite Hf.
  - intro H. run_inv H. reflexivity.
Qed.

(** The hero findings of a whole run are the findings of the hero check. *)
Lemma deck_file_hero_findings path d cards c df :
  py_in "__load_error__" d = false ->
  py_get d "cards" = JList cards ->
  wt_deck d cards = true -> wt_ctx c = true ->
  upper_field d "faction" = Ok df ->
  exists c' fs,
    validate_deck_file path (JObj d) c = (c', Ok tt) /\
    findings c' = findings c ++ fs /\
    forall f, hero_msg (f_message f) ->
      (In f fs <-> In f (hero_findings path c (py_get d "hero_id") df)).
Proof.
  intros Hload Hcards Hwd Hwt Hs.
  destruct (deck_file_stages_run path d cards c df Hload Hcards Hwd Hwt Hs)
    as (req & c1 & hf & c2 & acc & lfs & Freq & Hh & Hl & Hrun & Hlfs
        & Flfs).
  set (cons := constraints (deck_file (schema c))) in *.
  apply hero_check_exact in Hh.
  change (hero_findings path (add_findings c req) (py_get d "hero_id") df)
    with (hero_findings path c (py_get d "hero_id") df) in Hh.
  set (hfs := hero_findings path c (py_get d "hero_id") df) in *.
  eexists. exists (req ++ hfs ++ lfs
                   ++ size_findings path cons acc
                   ++ copies_findings path cons acc
                   ++ rare_findings path cons acc
                   ++ unique_findings path cons acc
                   ++ hero_copies_findings path cons acc).
  split; [exact Hrun |]. split.
  { simpl. rewrite Hlfs, Hh. simpl. now rewrite <- !app_assoc. }
  intros f Hmsg. split.
  - intro Hin. apply in_app_or in Hin. destruct Hin as [Hin | Hin].
    { rewrite Forall_forall in Freq. destruct (Freq _ Hin) as (name & ->).
      destruct Hmsg. }
    apply in_app_or in Hin. destruct Hin as [Hin | Hin]; [exact Hin |].
    exfalso. apply in_app_or in Hin. destruct Hin as [Hin | Hin].
    { rewrite Forall_forall in Flfs. apply Flfs in Hin.
      destruct (f_message f); simpl in *; tauto. }
    destruct f as [p l m]. simpl in Hmsg.
    destruct m; try contradiction.
    all: apply in_app_or in Hin; destruct Hin as [Hin | Hin];
      [not_from_size Hin |].
    all: apply in_app_or in Hin; destruct Hin as [Hin | Hin];
      [not_from_copies Hin |].
    all: apply in_app_or in Hin; destruct Hin as [Hin | Hin];
      [not_from_flag Hin |].
    all: apply in_app_or in Hin; destruct Hin as [Hin | Hin];
      [not_from_flag Hin | not_from_hero Hin].
  - intro Hin. apply in_or_app. right. apply in_or_app. now left.
Qed.



(** A hero that cannot be found.  On a well-typed deck whose truthy
    [hero_id] resolves to no card (or to an empty record), the validator
    reports "hero_id not found in CARDS" and nothing else about the hero:
    the type and the faction of the hero are not checked. *)
Theorem deck_hero_not_found path d cards c :
  py_in "__load_error__" d = false ->
  py_get d "cards" = JList cards ->
  wt_deck d cards = true -> wt_ctx c = true ->
  truthy (py_get d "hero_id") = true ->
  found (resolve c (py_get d "hero_id")) = None ->
  exists c' fs,
    validate_deck_file path (JObj d) c = (c', Ok tt) /\
    findings c' = findings c ++ fs /\
    In (mkFinding path ERROR (MHeroNotFound (py_get d "hero_id"))) fs /\
    (forall f, In f fs -> hero_msg (f_message f) ->
       f = mkFinding path ERROR (MHeroNotFound (py_get d "hero_id"))).
Proof.
  intros Hload Hcards Hwd Hwt Htr Hf.
  assert (Hfac : str_or_falsy (py_get d "faction") = true).
  { unfold wt_deck in Hwd. apply andb_true_iff in Hwd.
    destruct Hwd as [Hwd' _]. apply andb_true_iff in Hwd'. apply Hwd'. }
  destruct (upper_field_ok d "faction" Hfac) as (df & Hs).
  destruct (deck_file_hero_findings path d cards c df Hload Hcards Hwd Hwt Hs)
    as (c' & fs & Hrun & Hfs & Hiff).
  exists c', fs. split; [exact Hrun |]. split; [exact Hfs |].
  unfold hero_findings in Hiff. rewrite Htr, Hf in Hiff.
  cbn [negb] in Hiff. cbv iota in Hiff.
  split.
  - apply (Hiff (mkFinding path ERROR (MHeroNotFound (py_get d "hero_id")))
             I).
    now left.
  - intros f Hin Hmsg. apply (Hiff f Hmsg) in Hin.
    destruct Hin as [<- | []]. reflexivity.
Qed.

Lemma deck_hero_not_found_witness :
  In (mkFinding ex_deck_path ERROR (MHeroNotFound (JStr "Z9")))
    (findings
       (fst (validate_deck_file ex_deck_path (JObj ex_unknown_hero_deck)
               ex_faction_ctx))).
Proof.
  destruct (deck_hero_not_found ex_deck_path ex_unknown_hero_deck []
              ex_faction_ctx eq_refl eq_refl eq_refl eq_refl eq_refl eq_refl)
    as (c' & fs & Hrun & Hfs & Hin & _).
  rewrite Hrun. simpl fst. rewrite Hfs. apply in_or_app. now right.
Defined.

(** ** Card files: the findings of one element *)

Lemma card_rarity_check_run rule path i o c :
  (negb (rarities_checked rule) || str_or_falsy (py_get o "rarity"))%bool
  = true ->
  card_rarity_check rule path i o c
  = (add_findings c (rarity_findings rule path i o), Ok tt).
Proof.
  unfold card_rarity_check, rarity_findings, rarities_checked, bind, when,
    lift, str_method, add, ret.
  destruct (allowed_rarities rule) as [| a rs] eqn:Ea; simpl.
  - intros _. destruct (py_get o "rarity"); now rewrite add_findings_nil.
  - intro Hty.
    destruct (py_get o "rarity") as [| b | z | q | s | l | d]; simpl in *;
      try (rewrite add_findings_nil; reflexivity).
    + destruct b; [discriminate | now rewrite add_findings_nil].
    + destruct (Z.eqb z 0); [now rewrite add_findings_nil | discriminate].
    + destruct (Qeq_bool q (0 # 1));
        [now rewrite add_findings_nil | discriminate].
    + destruct (s =? ""); simpl; [now rewrite add_findings_nil |].
      destruct (_ || _)%bool; simpl;
        [now rewrite add_findings_nil | reflexivity].
    + destruct l; [now rewrite add_findings_nil | discriminate].
    + destruct d; [now rewrite add_findings_nil | discriminate].
Qed.

Lemma card_type_check_run path i o c :
  str_or_falsy (py_get_d o "type" (JStr "")) = true ->
  card_type_check path i o c
  = (add_findings c (type_findings path i o), Ok tt).
Proof.
  intro Hty. unfold card_type_check, type_findings.
  assert (Hn : exists t, norm_type (py_get_d o "type" (JStr "")) = Ok t).
  { unfold norm_type.
    destruct (str_or_falsy_or _ Hty) as (s & ->). simpl. eauto. }
  destruct Hn as (t & Ht). unfold bind, lift. rewrite Ht.
  apply when_add_run.
Qed.

Lemma card_id_check_findings path id_re i o c :
  str_or_falsy (py_get o "id") = true ->
  exists c1 idw,
    card_id_check path id_re i o c = (c1, Ok tt) /\
    findings c1 = findings c ++ idw /\
    Forall (fun f => exists j cid, f_message f = MIdPattern j cid) idw.
Proof.
  intro Hty.
  pose proof (card_id_check_outcome path id_re i o c) as Hout.
  rewrite Hty in Hout.
  assert (Hfr : frame (extends
                         (fun f => exists j cid,
                                     f_message f = MIdPattern j cid)
                         any_event)
                  (card_id_check path id_re i o)).
  { unfold card_id_check. frame_tac; simpl; eauto. }
  specialize (Hfr c).
  destruct (card_id_check path id_re i o c) as [c1 r]. simpl in *.
  subst r. destruct Hfr as (_ & _ & (idw & Hfs & Fw) & _).
  exists c1, idw. auto.
Qed.

(** A typed element: the validator returns, and its findings are the
    missing required fields, the id-pattern warning if any, the rarity
    warning if any and the type warning if any, in this order. *)
Lemma card_item_run rule path id_re i o c :
  card_item_typed rule (JObj o) = true ->
  exists c' idw,
    validate_card_item rule path id_re i (JObj o) c = (c', Ok tt) /\
    findings c'
    = findings c ++ required_findings rule path i o ++ idw
      ++ rarity_findings rule path i o ++ type_findings path i o /\
    Forall (fun f => exists j cid, f_message f = MIdPattern j cid) idw.
Proof.
  intro Hty. simpl in Hty.
  apply andb_true_iff in Hty. destruct Hty as [Hty Htype].
  apply andb_true_iff in Hty. destruct Hty as [Hid Hrar].
  unfold validate_card_item.
  unfold bind at 1. unfold card_required.
  rewrite (for_each_when_add_exact (card_required_fields rule)
             (fun f => negb (py_in f o)) (fun f => MMissingField i f)).
  fold (required_findings rule path i o).
  destruct (card_id_check_findings path id_re i o
              (add_findings c (required_findings rule path i o)) Hid)
    as (c1 & idw & Hrun & Hfs & Fw).
  unfold bind at 1. rewrite Hrun.
  unfold bind at 1. rewrite (card_rarity_check_run _ _ _ _ _ Hrar).
  rewrite (card_type_check_run _ _ _ _ Htype).
  eexists. exists idw. split; [reflexivity |]. split; [| exact Fw].
  simpl. rewrite Hfs. simpl. now rewrite <- !app_assoc.
Qed.

Lemma required_findings_spec rule path i o f0 :
  In f0 (required_findings rule path i o) <->
  exists f, f0 = mkFinding path ERROR (MMissingField i f) /\
            In f (card_required_fields rule) /\ py_in f o = false.
Proof.
  unfold required_findings. rewrite in_map_iff. split.
  - intros (f & <- & Hin). apply filter_In in Hin. destruct Hin as (Hin & Hn).
    exists f. repeat split; auto. now apply negb_true_iff.
  - intros (f & -> & Hin & Hn). exists f. split; [reflexivity |].
    apply filter_In. split; auto. now apply negb_true_iff.
Qed.

Lemma rarity_findings_spec rule path i o f0 :
  In f0 (rarity_findings rule path i o) <->
  exists r, py_get o "rarity" = JStr r /\
    f0 = mkFinding path WARN
           (MRarityNotAllowed i (JStr r) (allowed_rarities rule)) /\
    allowed_rarities rule <> [] /\ r <> "" /\
    str_mem (str_upper r) (allowed_rarities rule) = false.
Proof.
  unfold rarity_findings, rarities_checked.
  destruct (py_get o "rarity") as [| b | z | q | r | l | d];
    try (split; [intros [] | intros (r & Hx & _); discriminate]).
  destruct (allowed_rarities rule) as [| a rs] eqn:Ea.
  { simpl. split; [intros [] | intros (r0 & _ & _ & Hx & _); congruence]. }
  cbv iota. cbn [andb].
  destruct (String.eqb_spec r "") as [-> | Hr]; cbn [negb andb].
  { split; [intros [] | ].
    intros (r0 & Hx & _ & _ & Hy & _). inversion Hx; subst. congruence. }
  destruct (str_mem (str_upper r) (a :: rs)) eqn:Em; cbn [negb].
  - split; [intros [] |].
    intros (r0 & Hx & _ & _ & _ & Hy). inversion Hx; subst. congruence.
  - split.
    + intros [<- | []]. exists r. repeat split; auto. discriminate.
    + intros (r0 & Hx & -> & _). inversion Hx; subst. now left.
Qed.

Lemma str_lower_empty (s : string) : str_lower s = "" <-> s = "".
Proof. destruct s; simpl; split; auto; discriminate. Qed.

Lemma mapping_get_empty (u : string) :
  mapping_get type_mapping u u = "" <-> u = "".
Proof.
  split.
  - intro H. destruct (mapping_get_cases u) as [Hu | Hin]; [congruence |].
    rewrite H in Hin. unfold In in Hin.
    repeat (destruct Hin as [Hx | Hin]; [discriminate |]). destruct Hin.
  - intros ->. reflexivity.
Qed.

(** The normalised type is empty exactly for a value that, read as the
    empty string when falsy, holds nothing but white space. *)
Lemma norm_type_empty (v : json) :
  norm_type v = Ok "" <->
  exists s, py_or v (JStr "") = JStr s /\ str_strip s = "".
Proof.
  unfold norm_type.
  destruct (py_or v (JStr "")) as [| b | z | q | s | l | d];
    unfold str_method; cbv beta iota;
    try (split; [discriminate | intros (s0 & Hx & _); discriminate]).
  split.
  - intro H. exists s. split; [reflexivity |].
    apply str_lower_empty, mapping_get_empty. congruence.
  - intros (s0 & Hx & Hs). inversion Hx; subst s0.
    f_equal. apply mapping_get_empty, str_lower_empty. exact Hs.
Qed.

Lemma type_findings_spec path i o f0 :
  In f0 (type_findings path i o) <->
  f0 = mkFinding path WARN (MEmptyType i) /\
  exists s, py_or (py_get_d o "type" (JStr "")) (JStr "") = JStr s /\
            str_strip s = "".
Proof.
  unfold type_findings. rewrite <- norm_type_empty.
  destruct (norm_type (py_get_d o "type" (JStr ""))) as [t | e].
  - destruct (String.eqb_spec t "") as [-> | Ht].
    + split; [intros [<- | []]; auto | intros (-> & _); now left].
    + split; [intros [] | intros (_ & Hx); congruence].
  - split; [intros [] | intros (_ & Hx); discriminate].
Qed.

Ltac not_idw F Hin :=
  let j := fresh in let cid := fresh in let Hx := fresh in
  rewrite Forall_forall in F; destruct (F _ Hin) as (j & cid & Hx);
  discriminate Hx.

(** Required fields of a card.  For an element of a card file that is an
    object of the assumed field types, the validator returns and reports
    "Missing required field" for exactly the required fields that are not
    keys of the object; a key whose value is [null] is not missing. *)
Theorem card_required_fields_error rule path id_re i o c :
  card_item_typed rule (JObj o) = true ->
  exists c' fs,
    validate_card_item rule path id_re i (JObj o) c = (c', Ok tt) /\
    findings c' = findings c ++ fs /\
    forall l j f,
      In (mkFinding path l (MMissingField j f)) fs <->
      l = ERROR /\ j = i /\ In f (card_required_fields rule) /\
      py_in f o = false.
Proof.
  intro Hty.
  destruct (card_item_run rule path id_re i o c Hty)
    as (c' & idw & Hrun & Hfs & Fw).
  eexists. eexists. split; [exact Hrun |]. split; [exact Hfs |].
  intros l j f. rewrite in_app_iff, required_findings_spec. split.
  - intros [(f' & Hx & Hin & Hn) | Hin].
    + inversion Hx; subst. auto.
    + exfalso. apply in_app_or in Hin. destruct Hin as [Hin | Hin];
        [not_idw Fw Hin |].
      apply in_app_or in Hin. destruct Hin as [Hin | Hin].
      * apply rarity_findings_spec in Hin.
        destruct Hin as (r & _ & Hx & _). discriminate.
      * apply type_findings_spec in Hin. destruct Hin as (Hx & _).
        discriminate.
  - intros (-> & -> & Hin & Hn). left. eauto.
Qed.



Lemma card_required_fields_error_witness :
  In (mkFinding ex_card_path ERROR (MMissingField 0 "name"))
    (findings
       (fst (validate_card_item ex_card_rule ex_card_path (RPlus RDot) 0
               (JObj ex_card_partial) ex_ctx))).
Proof.
  destruct (card_required_fields_error ex_card_rule ex_card_path (RPlus RDot)
              0 ex_card_partial ex_ctx eq_refl)
    as (c' & fs & Hrun & Hfs & Hiff).
  rewrite Hrun. simpl fst. rewrite Hfs. apply in_or_app. right.
  apply Hiff. repeat split. right. now left.
Defined.



(** ** The cache is transparent *)

(** A lookup of a hashable id returns what the id resolves to (the indexed
    record, else the first match of the tree search), whether or not the
    answer was cached, reports nothing, and changes what no id resolves to:
    caching a hit never shadows or alters a later answer.  A lookup of a
    list or an object raises [TypeError] and leaves the index alone. *)
Theorem load_card_meta_transparent card_id c :
  (hashable card_id = true ->
   exists c1,
     _load_card_meta card_id c = (c1, Ok (resolve c card_id)) /\
     findings c1 = findings c /\ same_resolve c c1) /\
  (hashable card_id = false ->
   exists c1,
     _load_card_meta card_id c = (c1, Raise TypeError) /\
     findings c1 = findings c /\ card_index c1 = card_index c).
Proof.
  split; intro Hh.
  - destruct (_load_card_meta card_id c) as [c1 [r | e]] eqn:E.
    + destruct (load_card_meta_resolve _ _ _ _ E) as (-> & _ & Hf & Hsr).
      exists c1. auto.
    + exfalso. unfold _load_card_meta, bind, log, get_ctx in E.
      simpl in E. rewrite Hh in E. simpl in E.
      destruct (index_lookup card_id (card_index c)); simpl in E;
        [discriminate |].
      destruct (scan_tree card_id (root c)); discriminate.
  - unfold _load_card_meta, bind, log, get_ctx. simpl. rewrite Hh. simpl.
    eexists. split; [reflexivity |]. split; reflexivity.
Qed.
